(** * Flare-frequency distributions: a shallow embedding of [ffd.py]

    The module [ffd.py] defines two classes.  [FlareDataset] is a plain
    container (detection limit, exposure time, event energies, event
    count).  [Flares] is built from a list of datasets; its constructor
    concatenates and sorts the energies, looks up for every energy the
    exposure time in which it was detectable, and derives a naive and a
    corrected cumulative frequency.

    The constructor is written against NumPy.  Each NumPy function it calls
    is modelled below by a list function, in module [np], and the
    constructor is transcribed line by line in [Flares.__init__].  Python
    exceptions are modelled by the [result] type.  The method [plot_ffd]
    is modelled by the calls it makes to matplotlib and by the way it ends
    ([Flares.plot_ffd]).

    Numbers are kept abstract behind the interface [Numeric], with two
    instances: [F64.binary64], IEEE double precision as NumPy computes, and
    [Exact.rational], the rationals, in which the algebraic reading of the
    formulas can be stated.  Detection limits, exposure times and energies
    are numbers of that type; an integer given for one of them is its
    double.

    Statements that hold whatever the arithmetic are proved once, for every
    instance.  Statements about rounding are evaluated on doubles, and
    statements that need the laws of a field are proved on the rationals. *)

From Stdlib Require Import String.
From Stdlib Require Import List ZArith Lia Bool Permutation.
From Stdlib Require Import PrimFloat Floats Uint63.
From Stdlib Require Import QArith Qcanon.
Import ListNotations.

(** ** Exceptions *)

Inductive exn : Set :=
| ValueError   (* np.concatenate: need at least one array to concatenate *)
| IndexError.  (* fancy indexing: index out of bounds *)

Inductive result (A : Type) : Type :=
| Ok (a : A)
| Raise (x : exn).

Arguments Ok {A} a.
Arguments Raise {A} x.

Definition bind {A B : Type} (m : result A) (k : A -> result B) : result B :=
  match m with
  | Ok a => k a
  | Raise x => Raise x
  end.

Notation "x <- m ;; k" := (bind m (fun x => k))
  (at level 61, m at next level, right associativity).

(** ** The numeric interface

    [of_int] is the conversion NumPy applies to an integer operand of a
    floating-point operation; [lt] is the order NumPy sorts and searches
    with. *)

Class Numeric (num : Type) : Type := {
  add : num -> num -> num;
  mul : num -> num -> num;
  div : num -> num -> num;
  of_int : Z -> num;
  lt : num -> num -> bool
}.

Definition zero {num} `{Numeric num} : num := of_int 0.
Definition one {num} `{Numeric num} : num := of_int 1.

(** ** NumPy functions used by the constructor *)

Module np.
Section Functions.
Context {num : Type} `{Numeric num}.

(** [np.sum]: 0.0 on an empty list, otherwise the elements added from
    left to right.  NumPy starts from +0.0, adds fewer than eight doubles
    in this order and longer arrays in blocks: on doubles its result can
    differ in the last bits for eight or more numbers, and is +0.0 where
    this one is -0.0.  On the rationals the order does not matter. *)
Definition sum (a : list num) : num :=
  match a with
  | [] => zero
  | x :: r => fold_left add r x
  end.

(** [np.concatenate] refuses an empty sequence of arrays. *)
Definition concatenate (arrs : list (list num)) : result (list num) :=
  match arrs with
  | [] => Raise ValueError
  | _ :: _ => Ok (concat arrs)
  end.

(** Stable insertion sort on a key, shared by [sort] and [argsort].  A
    sorted array is determined up to the order of entries with equal keys,
    which are kept here in their original order. *)
Fixpoint insert_by {A : Type} (key : A -> num) (x : A) (l : list A) : list A :=
  match l with
  | [] => [x]
  | y :: r => if lt (key x) (key y) then x :: y :: r
              else y :: insert_by key x r
  end.

Definition sort_by {A : Type} (key : A -> num) (l : list A) : list A :=
  fold_left (fun acc x => insert_by key x acc) l [].

(** [np.sort]. *)
Definition sort (a : list num) : list num := sort_by (fun x => x) a.

(** [np.arange n] for an integer [n]. *)
Definition arange (n : nat) : list Z := map Z.of_nat (seq 0 n).

(** [np.argsort]: the indices that sort the array. *)
Definition argsort (a : list num) : list Z :=
  map snd (sort_by fst (combine a (arange (length a)))).

(** [a[i]] for an integer [i]: a negative index counts from the end, an
    index outside [-len, len) raises. *)
Definition getitem {A : Type} (a : list A) (i : Z) : result A :=
  let len := Z.of_nat (length a) in
  let j := if (i <? 0)%Z then (i + len)%Z else i in
  if (0 <=? j)%Z && (j <? len)%Z then
    match nth_error a (Z.to_nat j) with
    | Some x => Ok x
    | None => Raise IndexError
    end
  else Raise IndexError.

(** [a[idx]] for an integer array [idx]. *)
Fixpoint take {A : Type} (a : list A) (idx : list Z) : result (list A) :=
  match idx with
  | [] => Ok []
  | i :: r => x <- getitem a i ;; xs <- take a r ;; Ok (x :: xs)
  end.

(** [np.cumsum]: [out[0] = a[0]], [out[k] = out[k-1] + a[k]]. *)
Fixpoint cumsum_from (acc : num) (a : list num) : list num :=
  match a with
  | [] => []
  | x :: r => let s := add acc x in s :: cumsum_from s r
  end.

Definition cumsum (a : list num) : list num :=
  match a with
  | [] => []
  | x :: r => x :: cumsum_from x r
  end.

(** [np.searchsorted(a, v, side='right')] for one [v]: the index [i] with
    [a[i-1] <= v < a[i]], the position of the first entry above [v].  On
    an ascending array, which is what the constructor passes, this is the
    index that NumPy's binary search finds. *)
Fixpoint searchsorted_right1 (a : list num) (v : num) : Z :=
  match a with
  | [] => 0%Z
  | x :: r => if lt v x then 0%Z else (1 + searchsorted_right1 r v)%Z
  end.

Definition searchsorted_right (a : list num) (vs : list num) : list Z :=
  map (searchsorted_right1 a) vs.

End Functions.
End np.

(** ** class FlareDataset *)

Module FlareDataset.
Section DatasetClass.
Context {num : Type} `{Numeric num}.

Record t : Type := {
  elim : num;
  expt : num;
  e : list num;
  n : nat
}.

Definition __init__ (detection_limit exposure_time : num)
    (flare_energies : list num) : t :=
  {| elim := detection_limit;
     expt := exposure_time;
     e := flare_energies;
     n := length flare_energies |}.

End DatasetClass.
Arguments t num : clear implicits.
End FlareDataset.

(** ** The plotting boundary

    [plot_ffd] receives its options as keyword arguments and hands the
    curve to matplotlib.  The values that travel through [**kwargs], the
    two matplotlib entry points it uses and the ways the call can fail are
    modelled here; what matplotlib draws is not. *)

Module py.

(** A Python value as [plot_ffd] can tell values apart: it only looks at
    the truth value of one option.  [Obj] is any other object (an Axes, a
    line, a colour), identified by a number. *)
Inductive value : Type :=
| None_
| Bool (b : bool)
| Int (z : Z)
| Str (s : string)
| Obj (id : nat).

(** The truth value Python gives in [x if v else y].  An object without
    [__bool__] and [__len__] is true. *)
Definition truthy (v : value) : bool :=
  match v with
  | None_ => false
  | Bool b => b
  | Int z => negb (z =? 0)%Z
  | Str s => negb (String.eqb s EmptyString)
  | Obj _ => true
  end.

(** [**kwargs]: keyword and value, each keyword once. *)
Definition kwargs : Type := list (string * value).

(** [kwargs.get(key, default)]. *)
Fixpoint get (kw : kwargs) (key : string) (default : value) : value :=
  match kw with
  | [] => default
  | (k, v) :: r => if String.eqb k key then v else get r key default
  end.

(** [key in kwargs]. *)
Fixpoint has (kw : kwargs) (key : string) : bool :=
  match kw with
  | [] => false
  | (k, _) :: r => String.eqb k key || has r key
  end.

(** How a call of [plot_ffd] can fail. *)
Inductive failure : Type :=
| AttributeError          (* the target has no attribute [step] *)
| TypeError               (* [step] got two values for the keyword [where] *)
| UnpackError             (* ValueError: [line, = ...] did not get one value *)
| Propagated (err : value).  (* the exception that [ax.step] raised *)

Inductive outcome : Type :=
| Returns (line : value)
| Raises (f : failure).

Section Boundary.
Context {num : Type}.

(** The calls that leave the module, in the order they are made. *)
Inductive call : Type :=
| Gca
| Step (ax : value) (x y : list num) (where_ : string) (kw : kwargs).

(** matplotlib as [plot_ffd] sees it: the axes [plt.gca()] answers with,
    and for a target the method [step], if it has one, with its answer: the
    list of lines drawn or the exception raised. *)
Record matplotlib : Type := {
  gca : value;
  step : value -> option (list num -> list num -> string -> kwargs ->
                          value + list value)
}.

End Boundary.
Arguments call num : clear implicits.
Arguments matplotlib num : clear implicits.
End py.

(** ** class Flares *)

Module Flares.
Section FlaresClass.
Context {num : Type} `{Numeric num}.

Record t : Type := {
  datasets : list (FlareDataset.t num);
  n_total : nat;
  expt_total : num;
  e : list num;
  expt_detectable : list num;
  cumfreq_naive : list num;
  cumfreq_corrected : list num
}.

Definition __init__ (datasets : list (FlareDataset.t num)) : result t :=
  (* totals *)
  let n_total := fold_left Nat.add (map FlareDataset.n datasets) 0%nat in
  let expt_total := np.sum (map FlareDataset.expt datasets) in
  (* event energies concatenated from all flare datasets *)
  e <- np.concatenate (map FlareDataset.e datasets) ;;
  let e := np.sort e in
  (* exposure time in which an event of energy e could have been detected *)
  let expts := map FlareDataset.expt datasets in
  let elims := map FlareDataset.elim datasets in
  let isort := np.argsort elims in
  elims <- np.take elims isort ;;
  expts <- np.take expts isort ;;
  let cumexpts := np.cumsum expts in
  let i_lims := np.searchsorted_right elims e in
  expt_detectable <- np.take cumexpts (map (fun i => i - 1)%Z i_lims) ;;
  (* cumulative frequencies *)
  let cumno := map (fun k => k + 1)%Z (rev (np.arange n_total)) in
  let cumfreq_naive := map (fun k => div (of_int k) expt_total) cumno in
  let cumno_corrected :=
    map (fun s => mul s expt_total)
        (rev (np.cumsum (map (fun d => div one d) (rev expt_detectable)))) in
  let cumfreq_corrected := map (fun c => div c expt_total) cumno_corrected in
  Ok {| datasets := datasets;
        n_total := n_total;
        expt_total := expt_total;
        e := e;
        expt_detectable := expt_detectable;
        cumfreq_naive := cumfreq_naive;
        cumfreq_corrected := cumfreq_corrected |}.

(** [plot_ffd]: the calls it makes and how it ends.  The positional
    arguments are accepted and used nowhere.  [plt.gca()] is evaluated as
    the default of the lookup, whether or not [ax] is given; the keyword
    arguments are handed on whole, next to [where='post']. *)
Definition plot_ffd (mpl : py.matplotlib num) (self : t)
    (args : list py.value) (kwargs : py.kwargs)
    : list (py.call num) * py.outcome :=
  let ax := py.get kwargs "ax" (py.gca mpl) in
  let corrected := py.get kwargs "corrected" (py.Bool true) in
  let cf := if py.truthy corrected then cumfreq_corrected self
            else cumfreq_naive self in
  match py.step mpl ax with
  | None => ([py.Gca], py.Raises py.AttributeError)
  | Some step =>
      if py.has kwargs "where" then ([py.Gca], py.Raises py.TypeError)
      else
        ([py.Gca; py.Step ax (e self) cf "post" kwargs],
         match step (e self) cf "post"%string kwargs with
         | inl err => py.Raises (py.Propagated err)
         | inr [line] => py.Returns line
         | inr _ => py.Raises py.UnpackError
         end)
  end.

End FlaresClass.
Arguments t num : clear implicits.
End Flares.

(** ** IEEE double precision *)

Module F64.

(** The cast of a 64-bit integer to a double. *)
Definition from_int (z : Z) : float :=
  if (z <? 0)%Z then PrimFloat.opp (PrimFloat.of_uint63 (Uint63.of_Z (- z)))
  else PrimFloat.of_uint63 (Uint63.of_Z z).

(** NumPy's order on doubles: the IEEE order, with NaN after every
    number. *)
Definition np_lt (a b : float) : bool :=
  PrimFloat.ltb a b || (PrimFloat.is_nan b && negb (PrimFloat.is_nan a)).

(** The same order on the specification of the doubles. *)
Definition spec_is_nan (x : spec_float) : bool := negb (SFeqb x x).

Definition spec_lt (x y : spec_float) : bool :=
  SFltb x y || (spec_is_nan y && negb (spec_is_nan x)).

#[export] Instance binary64 : Numeric float := {
  add := PrimFloat.add;
  mul := PrimFloat.mul;
  div := PrimFloat.div;
  of_int := from_int;
  lt := np_lt
}.

End F64.

(** ** Exact rational arithmetic

    The rationals in canonical form, so that equal numbers are equal
    terms.  A quotient by zero is 0 here and infinite or undefined in
    NumPy; with positive exposure times no divisor is zero
    ([exposures_positive]), and each statement on the rationals names the
    divisors it needs to be other than zero. *)

Module Exact.

Definition from_int (z : Z) : Qc := Q2Qc (inject_Z z).

(** The strict order [a < b]. *)
Definition np_lt (a b : Qc) : bool := negb (Qle_bool b a).

#[export] Instance rational : Numeric Qc := {
  add := Qcplus;
  mul := Qcmult;
  div := Qcdiv;
  of_int := from_int;
  lt := np_lt
}.

End Exact.

(** * Vocabulary of the statements *)

Section Vocabulary.
Context {num : Type} `{Numeric num}.

Local Abbreviation dataset := (FlareDataset.t num).

(** An index that [a[i]] accepts on an array of length [len]. *)
Definition in_bounds (len : nat) (i : Z) : Prop :=
  (- Z.of_nat len <= i < Z.of_nat len)%Z.

(** A dataset as [FlareDataset.__init__] leaves it: the stored count is
    the number of stored events. *)
Definition constructed (d : dataset) : Prop :=
  FlareDataset.n d = length (FlareDataset.e d).

(** The detection limits in ascending order, the exposure times in the
    same order, and the energies in ascending order, as the constructor
    computes them. *)
Definition sorted_elims (ds : list dataset) : result (list num) :=
  np.take (map FlareDataset.elim ds) (np.argsort (map FlareDataset.elim ds)).

Definition sorted_expts (ds : list dataset) : result (list num) :=
  np.take (map FlareDataset.expt ds) (np.argsort (map FlareDataset.elim ds)).

Definition energies (ds : list dataset) : list num :=
  np.sort (concat (map FlareDataset.e ds)).

(** The total count of the specification: the number of events of all
    datasets together. *)
Definition events_count (ds : list dataset) : nat :=
  length (concat (map FlareDataset.e ds)).

(** [sum_of a t]: the number [t] is a sum of the numbers [a], in whatever
    order and grouping the additions are made; an empty sum is 0.  On the
    rationals [t] is the one sum of [a]; on doubles the order decides the
    last bits, and every way of adding up [a] gives a sum. *)
Inductive sum_of : list num -> num -> Prop :=
| sum_of_nil : sum_of [] zero
| sum_of_one (x : num) : sum_of [x] x
| sum_of_app (a b : list num) (s t : num) :
    sum_of a s -> sum_of b t -> sum_of (a ++ b) (add s t)
| sum_of_perm (a b : list num) (s : num) :
    Permutation a b -> sum_of a s -> sum_of b s.

(** The descending counts [n, n-1, ..., 1] of line 64. *)
Definition cumno (n : nat) : list Z :=
  map (fun k => k + 1)%Z (rev (np.arange n)).

(** The dataset could have detected an event of energy [m]: its detection
    limit is at most [m]. *)
Definition detects (m : num) (d : dataset) : bool :=
  negb (lt m (FlareDataset.elim d)).

(** The energy [m] lies strictly below every detection limit. *)
Definition uncovered (ds : list dataset) (m : num) : Prop :=
  forall d, In d ds -> lt m (FlareDataset.elim d) = true.

(** The detectable exposure as the class docstring and the specification
    define it: the sum of the exposure times of the datasets whose
    detection limit is at most [m]. *)
Definition detectable_exposure_doc (ds : list dataset) (m : num) : num :=
  np.sum (map FlareDataset.expt (filter (detects m) ds)).

(** The terms [1/detectable_exposure] of the corrected frequency. *)
Definition inverse_exposures (detectable : list num) : list num :=
  map (fun d => div one d) detectable.

(** The specification's running sum, accumulated from the highest energy
    down: entry [i] is the sum of the terms at the positions [j >= i],
    starting with the last term and adding the earlier ones in turn. *)
Fixpoint running_sums_topdown (terms : list num) : list num :=
  match terms with
  | [] => []
  | x :: r =>
      match running_sums_topdown r with
      | [] => [x]
      | s :: above => add s x :: s :: above
      end
  end.

(** Some dataset could have detected an event of energy [m]. *)
Definition covered (ds : list dataset) (m : num) : Prop :=
  exists d, In d ds /\ detects m d = true.

(** A list in ascending order of a key: no entry is followed by one with
    a smaller key. *)
Fixpoint ascending {A : Type} (key : A -> num) (l : list A) : Prop :=
  match l with
  | [] => True
  | x :: r =>
      match r with
      | [] => True
      | y :: _ => lt (key y) (key x) = false
      end /\ ascending key r
  end.

(** An entry of an array paired with its index. *)
Definition indexed {A : Type} (a : list A) (p : A * Z) : Prop :=
  (0 <= snd p)%Z /\ nth_error a (Z.to_nat (snd p)) = Some (fst p).

(** An array whose entries never decrease with the index, in the order
    [lt] of the numbers. *)
Definition nondecreasing (a : list num) : Prop :=
  forall i j x y, (i <= j)%nat ->
    nth_error a i = Some x -> nth_error a j = Some y -> lt y x = false.

End Vocabulary.

(** * Concrete inputs *)

Module Scenario.
Import F64.

Local Abbreviation dataset := (FlareDataset.t float).

(** The two campaigns of the specification's concrete scenario. *)
Definition dataset_A : dataset :=
  FlareDataset.__init__ 1%float 100%float [2%float; 5%float].
Definition dataset_B : dataset :=
  FlareDataset.__init__ 3%float 50%float [4%float].

(** One campaign holding an event below its own detection limit. *)
Definition below_limit : dataset :=
  FlareDataset.__init__ 3%float 50%float [2%float].

(** One campaign whose detection limit equals the energy of its event,
    and a less sensitive one. *)
Definition at_limit : dataset :=
  FlareDataset.__init__ 2%float 100%float [2%float].
Definition above_limit : dataset :=
  FlareDataset.__init__ 3%float 50%float [].

(** One campaign with no exposure time. *)
Definition no_exposure : dataset :=
  FlareDataset.__init__ 1%float 0%float [2%float].

(** Two campaigns with distinct limits; the event 0.5 is below both. *)
Definition shallow : dataset :=
  FlareDataset.__init__ 1%float 100%float [0.5%float; 2%float].
Definition deep : dataset :=
  FlareDataset.__init__ 3%float 50%float [].

(** Two campaigns with total exposure 6, one event detectable for 5. *)
Definition five : dataset := FlareDataset.__init__ 1%float 5%float [2%float].
Definition plus_one : dataset := FlareDataset.__init__ 3%float 1%float [].

(** One campaign with three events in ten units of time. *)
Definition three_in_ten : dataset :=
  FlareDataset.__init__ 1%float 10%float [2%float; 3%float; 4%float].

(** One campaign with five events in ten units of time. *)
Definition five_in_ten : dataset :=
  FlareDataset.__init__ 1%float 10%float
    [2%float; 3%float; 4%float; 5%float; 6%float].

(** A matplotlib whose every object has a [step] that draws one line,
    and keyword arguments that choose the naive curve. *)
Definition one_line : py.matplotlib float :=
  {| py.gca := py.Obj 0;
     py.step := fun _ => Some (fun _ _ _ _ => inr [py.Obj 1]) |}.
Definition naive_please : py.kwargs := [("corrected"%string, py.Bool false)].

(** Campaigns without events. *)
Definition quiet : list dataset :=
  [FlareDataset.__init__ 1%float 100%float [];
   FlareDataset.__init__ 3%float 50%float []].

End Scenario.

Module ExactScenario.
Import Exact.

Local Abbreviation dataset := (FlareDataset.t Qc).

(** The campaigns of [Scenario] over the rationals. *)
Definition dataset_A : dataset :=
  FlareDataset.__init__ (from_int 1) (from_int 100) [from_int 2; from_int 5].
Definition dataset_B : dataset :=
  FlareDataset.__init__ (from_int 3) (from_int 50) [from_int 4].

Definition five : dataset :=
  FlareDataset.__init__ (from_int 1) (from_int 5) [from_int 2].
Definition plus_one : dataset :=
  FlareDataset.__init__ (from_int 3) (from_int 1) [].
Definition three_in_ten : dataset :=
  FlareDataset.__init__ (from_int 1) (from_int 10)
    [from_int 2; from_int 3; from_int 4].

End ExactScenario.

(** * Properties of the NumPy model *)

Section NumpyFacts.
Context {num : Type} `{Numeric num}.

Lemma bind_ok_inv (A B : Type) (m : result A) (k : A -> result B) (b : B) :
  (x <- m ;; k x) = Ok b -> exists a, m = Ok a /\ k a = Ok b.
Proof.
  destruct m as [a|x]; simpl; intros E; [eauto | discriminate].
Qed.

(** *** Sorting permutes *)

Lemma insert_by_perm (A : Type) (key : A -> num) (x : A) (l : list A) :
  Permutation (np.insert_by key x l) (x :: l).
Proof.
  induction l as [|y r IH]; simpl.
  - apply Permutation_refl.
  - destruct (lt (key x) (key y)).
    + apply Permutation_refl.
    + eapply perm_trans; [apply perm_skip, IH | apply perm_swap].
Qed.

Lemma sort_by_fold_perm (A : Type) (key : A -> num) (l acc : list A) :
  Permutation (fold_left (fun acc x => np.insert_by key x acc) l acc)
              (acc ++ l).
Proof.
  revert acc; induction l as [|x l IH]; intros acc; simpl.
  - rewrite app_nil_r. apply Permutation_refl.
  - eapply perm_trans; [apply IH|].
    eapply perm_trans;
      [apply Permutation_app_tail, insert_by_perm|].
    simpl. apply Permutation_middle.
Qed.

Lemma sort_by_perm (A : Type) (key : A -> num) (l : list A) :
  Permutation (np.sort_by key l) l.
Proof. apply (sort_by_fold_perm A key l []). Qed.

Lemma sort_length (a : list num) : length (np.sort a) = length a.
Proof. apply Permutation_length, sort_by_perm. Qed.

Lemma arange_length (k : nat) : length (np.arange k) = k.
Proof. unfold np.arange. now rewrite length_map, length_seq. Qed.

Lemma arange_bounds (k : nat) (i : Z) :
  In i (np.arange k) -> (0 <= i < Z.of_nat k)%Z.
Proof.
  unfold np.arange. rewrite in_map_iff.
  intros (j & <- & Hj). apply in_seq in Hj. lia.
Qed.

Lemma argsort_length (a : list num) : length (np.argsort a) = length a.
Proof.
  unfold np.argsort.
  rewrite length_map, (Permutation_length (sort_by_perm _ _ _)).
  rewrite length_combine, arange_length. apply Nat.min_id.
Qed.

Lemma argsort_bounds (a : list num) (i : Z) :
  In i (np.argsort a) -> (0 <= i < Z.of_nat (length a))%Z.
Proof.
  unfold np.argsort. rewrite in_map_iff.
  intros ([x j] & <- & Hin). simpl.
  apply (Permutation_in _ (sort_by_perm _ _ _)) in Hin.
  apply in_combine_r in Hin. now apply arange_bounds.
Qed.

(** *** Indexing *)

Lemma getitem_in_bounds (A : Type) (a : list A) (i : Z) :
  in_bounds (length a) i -> exists x, np.getitem a i = Ok x.
Proof.
  unfold in_bounds, np.getitem. intros Hi.
  set (j := if (i <? 0)%Z then (i + Z.of_nat (length a))%Z else i).
  assert (Hj : (0 <= j < Z.of_nat (length a))%Z).
  { subst j. destruct (Z.ltb_spec i 0); lia. }
  replace ((0 <=? j)%Z && (j <? Z.of_nat (length a))%Z) with true
    by (symmetry; apply andb_true_intro; split;
        [apply Z.leb_le | apply Z.ltb_lt]; lia).
  destruct (nth_error a (Z.to_nat j)) as [x|] eqn:E; [eauto|].
  apply nth_error_None in E. lia.
Qed.

Lemma take_in_bounds (A : Type) (a : list A) (idx : list Z) :
  Forall (in_bounds (length a)) idx -> exists l, np.take a idx = Ok l.
Proof.
  induction 1 as [|i r Hi _ (l & IH)]; simpl.
  - eauto.
  - destruct (getitem_in_bounds A a i Hi) as (x & ->). simpl.
    rewrite IH. simpl. eauto.
Qed.

Lemma take_length (A : Type) (a : list A) (idx : list Z) (l : list A) :
  np.take a idx = Ok l -> length l = length idx.
Proof.
  revert l; induction idx as [|i r IH]; simpl; intros l E.
  - now inversion E.
  - apply bind_ok_inv in E as (x & _ & E).
    apply bind_ok_inv in E as (xs & E1 & E).
    inversion E; subst. simpl. f_equal. now apply IH.
Qed.

Lemma take_In (A : Type) (a : list A) (idx : list Z) (l : list A) (x : A) :
  np.take a idx = Ok l -> In x l -> In x a.
Proof.
  revert l; induction idx as [|i r IH]; simpl; intros l E Hx.
  - inversion E; subst. destruct Hx.
  - apply bind_ok_inv in E as (y & Ey & E).
    apply bind_ok_inv in E as (xs & E1 & E).
    inversion E; subst. destruct Hx as [<-|Hx]; [|eauto].
    unfold np.getitem in Ey.
    destruct (_ && _); [|discriminate].
    destruct (nth_error a _) eqn:En; [|discriminate].
    inversion Ey; subst. eapply nth_error_In; eauto.
Qed.

(** *** Cumulative sums and searches *)

Lemma cumsum_from_length (acc : num) (a : list num) :
  length (np.cumsum_from acc a) = length a.
Proof. revert acc; induction a; simpl; auto. Qed.

Lemma cumsum_length (a : list num) : length (np.cumsum a) = length a.
Proof. destruct a; simpl; [|rewrite cumsum_from_length]; reflexivity. Qed.

Lemma searchsorted_right1_bounds (a : list num) (v : num) :
  (0 <= np.searchsorted_right1 a v <= Z.of_nat (length a))%Z.
Proof.
  induction a as [|x r IH]; cbn [np.searchsorted_right1 length].
  - lia.
  - destruct (lt v x); lia.
Qed.

End NumpyFacts.

(** * Properties of the constructor *)

Section ConstructorFacts.
Context {num : Type} `{Numeric num}.

Local Abbreviation dataset := (FlareDataset.t num).

Lemma init_constructed (l x : num) (es : list num) :
  constructed (FlareDataset.__init__ l x es).
Proof. reflexivity. Qed.

(** What a successful construction computed. *)
Lemma init_inv (ds : list dataset) (r : Flares.t num) :
  Flares.__init__ ds = Ok r ->
  exists elims expts,
    ds <> [] /\
    sorted_elims ds = Ok elims /\
    sorted_expts ds = Ok expts /\
    np.take (np.cumsum expts)
            (map (fun i => i - 1)%Z
                 (np.searchsorted_right elims (energies ds)))
      = Ok (Flares.expt_detectable r) /\
    Flares.datasets r = ds /\
    Flares.n_total r = fold_left Nat.add (map FlareDataset.n ds) 0%nat /\
    Flares.expt_total r = np.sum (map FlareDataset.expt ds) /\
    Flares.e r = energies ds /\
    Flares.cumfreq_naive r =
      map (fun k => div (of_int k) (Flares.expt_total r))
          (map (fun k => k + 1)%Z (rev (np.arange (Flares.n_total r)))) /\
    Flares.cumfreq_corrected r =
      map (fun c => div c (Flares.expt_total r))
          (map (fun s => mul s (Flares.expt_total r))
               (rev (np.cumsum (map (fun d => div one d)
                                    (rev (Flares.expt_detectable r)))))).
Proof.
  unfold Flares.__init__. intros E.
  apply bind_ok_inv in E as (e0 & Ee & E).
  apply bind_ok_inv in E as (elims & Eel & E).
  apply bind_ok_inv in E as (expts & Eex & E).
  apply bind_ok_inv in E as (det & Edet & E).
  inversion E; subst r; clear E. cbn [Flares.datasets Flares.n_total
    Flares.expt_total Flares.e Flares.expt_detectable Flares.cumfreq_naive
    Flares.cumfreq_corrected].
  assert (Hne : ds <> []) by (intros ->; discriminate Ee).
  assert (He0 : e0 = concat (map FlareDataset.e ds)).
  { destruct ds; [congruence|]. simpl in Ee. now inversion Ee. }
  subst e0. exists elims, expts. unfold energies.
  repeat split; auto.
Qed.

Lemma sorted_elims_ok (ds : list dataset) :
  exists elims, sorted_elims ds = Ok elims /\ length elims = length ds.
Proof.
  destruct (take_in_bounds _ (map FlareDataset.elim ds)
              (np.argsort (map FlareDataset.elim ds))) as (l & E).
  - apply Forall_forall. intros i Hi. apply argsort_bounds in Hi.
    unfold in_bounds. lia.
  - exists l. split; [exact E|].
    apply take_length in E. now rewrite E, argsort_length, length_map.
Qed.

Lemma sorted_expts_ok (ds : list dataset) :
  exists expts, sorted_expts ds = Ok expts /\ length expts = length ds.
Proof.
  destruct (take_in_bounds _ (map FlareDataset.expt ds)
              (np.argsort (map FlareDataset.elim ds))) as (l & E).
  - apply Forall_forall. intros i Hi. apply argsort_bounds in Hi.
    unfold in_bounds. rewrite length_map in *. lia.
  - exists l. split; [exact E|].
    apply take_length in E. now rewrite E, argsort_length, length_map.
Qed.

(** The lookup [cumexpts[i_lims - 1]] never leaves the array: the index
    [-1] is accepted and denotes the last entry. *)
Lemma detectable_lookup_ok (elims cumexpts es : list num) :
  length cumexpts = length elims -> elims <> [] ->
  exists det,
    np.take cumexpts
      (map (fun i => i - 1)%Z (np.searchsorted_right elims es)) = Ok det
    /\ length det = length es.
Proof.
  intros Hlen Hne.
  destruct (take_in_bounds _ cumexpts
    (map (fun i => i - 1)%Z (np.searchsorted_right elims es))) as (l & E).
  - apply Forall_forall. intros i Hi.
    unfold np.searchsorted_right in Hi. rewrite map_map in Hi.
    apply in_map_iff in Hi as (v & <- & _).
    pose proof (searchsorted_right1_bounds elims v) as Hb.
    unfold in_bounds. rewrite Hlen.
    destruct elims; [congruence|]. simpl length in *. lia.
  - exists l. split; [exact E|]. apply take_length in E.
    rewrite E. unfold np.searchsorted_right. now rewrite !length_map.
Qed.

(** Construction succeeds on every non-empty list of datasets. *)
Lemma init_total (ds : list dataset) :
  ds <> [] -> exists r, Flares.__init__ ds = Ok r.
Proof.
  intros Hne. unfold Flares.__init__.
  destruct ds as [|d ds']; [congruence|].
  cbn [np.concatenate map bind].
  destruct (sorted_elims_ok (d :: ds')) as (elims & Eel & Lel).
  destruct (sorted_expts_ok (d :: ds')) as (expts & Eex & Lex).
  unfold sorted_elims, sorted_expts in Eel, Eex.
  cbn [map] in Eel, Eex. rewrite Eel, Eex. cbn [bind].
  destruct (detectable_lookup_ok elims (np.cumsum expts)
              (np.sort (concat (FlareDataset.e d :: map FlareDataset.e ds'))))
    as (det & Edet & _).
  - rewrite cumsum_length. congruence.
  - intros ->. discriminate Lel.
  - rewrite Edet. cbn [bind]. eauto.
Qed.

Lemma fold_add_shift (l : list nat) (a : nat) :
  fold_left Nat.add l a = (a + fold_left Nat.add l 0)%nat.
Proof.
  revert a; induction l as [|x l IH]; intros a; simpl.
  - lia.
  - rewrite (IH (a + x)%nat), (IH x). lia.
Qed.

Lemma n_total_constructed (ds : list dataset) :
  Forall constructed ds ->
  fold_left Nat.add (map FlareDataset.n ds) 0%nat =
  length (concat (map FlareDataset.e ds)).
Proof.
  induction 1 as [|d ds Hd _ IH]; simpl.
  - reflexivity.
  - rewrite fold_add_shift, IH, length_app. now rewrite Hd.
Qed.

(** The four arrays are parallel, of length [n_total]. *)
Lemma init_lengths (ds : list dataset) (r : Flares.t num) :
  Flares.__init__ ds = Ok r -> Forall constructed ds ->
  length (Flares.e r) = Flares.n_total r /\
  length (Flares.expt_detectable r) = Flares.n_total r /\
  length (Flares.cumfreq_naive r) = Flares.n_total r /\
  length (Flares.cumfreq_corrected r) = Flares.n_total r.
Proof.
  intros E Hc.
  destruct (init_inv ds r E) as
    (elims & expts & _ & _ & _ & Edet & _ & En & _ & Ee & Enaive & Ecorr).
  apply take_length in Edet.
  unfold np.searchsorted_right in Edet. rewrite !length_map in Edet.
  assert (Le : length (Flares.e r) = Flares.n_total r).
  { rewrite Ee, En, n_total_constructed by assumption.
    unfold energies. apply sort_length. }
  rewrite Enaive, Ecorr.
  rewrite !length_map, !length_rev, cumsum_length, !length_map, length_rev.
  rewrite arange_length, Edet, <- Ee. auto.
Qed.

End ConstructorFacts.

(** * The constructor on every numeric type *)

Section GenericClaims.
Context {num : Type} `{Numeric num}.

Local Abbreviation dataset := (FlareDataset.t num).

(** C4: constructing the aggregate from zero datasets raises (the
    [ValueError] of [np.concatenate]); no aggregate is returned. *)
Theorem init_empty_raises :
  Flares.__init__ (@nil dataset) = Raise ValueError /\
  forall r, Flares.__init__ (@nil dataset) <> Ok r.
Proof.
  split; [reflexivity | intros r E; discriminate E].
Qed.

Lemma concat_all_nil (A : Type) (ls : list (list A)) :
  Forall (fun l => l = []) ls -> concat ls = [].
Proof. induction 1 as [|l ls -> _ IH]; simpl; auto. Qed.

(** C10: on a non-empty list of datasets that all have an empty event
    sequence, construction succeeds; the count is 0 and the energies, the
    detectable exposures and both frequencies are empty arrays. *)
Theorem init_no_events (ds : list dataset) :
  ds <> [] ->
  Forall constructed ds ->
  Forall (fun d => FlareDataset.e d = []) ds ->
  exists r, Flares.__init__ ds = Ok r /\
    Flares.n_total r = 0%nat /\
    Flares.e r = [] /\
    Flares.expt_detectable r = [] /\
    Flares.cumfreq_naive r = [] /\
    Flares.cumfreq_corrected r = [].
Proof.
  intros Hne Hc He.
  destruct (init_total ds Hne) as (r & E). exists r. split; [exact E|].
  assert (Hcat : concat (map FlareDataset.e ds) = []).
  { apply concat_all_nil. rewrite Forall_map. exact He. }
  destruct (init_lengths ds r E Hc) as (Le & Ld & Ln & Lc).
  destruct (init_inv ds r E) as
    (_ & _ & _ & _ & _ & _ & _ & En & _ & Ee & _ & _).
  assert (Hn : Flares.n_total r = 0%nat).
  { rewrite En, n_total_constructed, Hcat by assumption. reflexivity. }
  rewrite Hn in *.
  repeat split; auto using length_zero_iff_nil;
    now apply length_zero_iff_nil.
Qed.

(** C2, as the code behaves: an event below every detection limit does not
    make construction raise; the aggregate is returned, with its four
    arrays of length [n_total]. *)
Theorem init_uncovered_event_returns (ds : list dataset) (m : num) :
  Forall constructed ds ->
  In m (concat (map FlareDataset.e ds)) ->
  uncovered ds m ->
  exists r, Flares.__init__ ds = Ok r /\
    length (Flares.e r) = Flares.n_total r /\
    length (Flares.expt_detectable r) = Flares.n_total r /\
    length (Flares.cumfreq_naive r) = Flares.n_total r /\
    length (Flares.cumfreq_corrected r) = Flares.n_total r.
Proof.
  intros Hc Hm _.
  assert (Hne : ds <> []) by (intros ->; destruct Hm).
  destruct (init_total ds Hne) as (r & E). exists r.
  split; [exact E | exact (init_lengths ds r E Hc)].
Qed.

(** C3, as the code behaves: a non-empty list of datasets whose exposure
    times sum to zero does not make construction raise; the aggregate is
    returned and entry [i] of the naive frequency is the unchecked quotient
    of the count [n_total - i] by that zero. *)
Theorem init_zero_exposure_returns (ds : list dataset) :
  ds <> [] ->
  np.sum (map FlareDataset.expt ds) = zero ->
  exists r, Flares.__init__ ds = Ok r /\
    Flares.expt_total r = zero /\
    Flares.cumfreq_naive r =
      map (fun k => div (of_int k) zero) (cumno (Flares.n_total r)).
Proof.
  intros Hne Hz.
  destruct (init_total ds Hne) as (r & E). exists r.
  destruct (init_inv ds r E) as
    (_ & _ & _ & _ & _ & _ & _ & _ & ET & _ & Enaive & _).
  rewrite Enaive, ET, Hz. auto.
Qed.

(** *** The naive frequency *)

Lemma cumno_nth (n i : nat) :
  (i < n)%nat -> nth_error (cumno n) i = Some (Z.of_nat (n - i)).
Proof.
  intros Hi. unfold cumno, np.arange.
  rewrite nth_error_map, <- map_rev, nth_error_map.
  rewrite nth_error_rev, length_seq.
  destruct (Nat.ltb_spec i n) as [_|Hge]; [|lia].
  assert (Hlt : (n - S i < n)%nat) by lia.
  rewrite (nth_error_nth' _ 0%nat) by (rewrite length_seq; exact Hlt).
  rewrite seq_nth by exact Hlt. cbn [Nat.add option_map]. f_equal. lia.
Qed.

Lemma sum_of_fold (a r : list num) (acc : num) :
  sum_of a acc -> sum_of (a ++ r) (fold_left add r acc).
Proof.
  revert a acc; induction r as [|y r IH]; intros a acc Ha.
  - rewrite app_nil_r. exact Ha.
  - cbn [fold_left].
    replace (a ++ y :: r) with ((a ++ [y]) ++ r)
      by (rewrite <- app_assoc; reflexivity).
    apply IH, sum_of_app; [exact Ha | apply sum_of_one].
Qed.

(** What [np.sum] returns is a sum of its argument. *)
Lemma np_sum_is_sum (a : list num) : sum_of a (np.sum a).
Proof.
  destruct a as [|x r]; [apply sum_of_nil|].
  apply (sum_of_fold [x] r x), sum_of_one.
Qed.

(** C6: for datasets built by [FlareDataset.__init__], the count [n] of the
    aggregate is the number of all events of the input, its total exposure
    [T] is a sum of the exposure times of the input, and entry [i] of the
    naive frequency is [(n - i) / T]; with [n = 5] and [T = 10] the array
    is [5/10, 4/10, 3/10, 2/10, 1/10]. *)
Theorem cumfreq_naive_formula (ds : list dataset) :
  ds <> [] ->
  Forall constructed ds ->
  exists r, Flares.__init__ ds = Ok r /\
    Flares.n_total r = events_count ds /\
    sum_of (map FlareDataset.expt ds) (Flares.expt_total r) /\
    (forall i, (i < events_count ds)%nat ->
       nth_error (Flares.cumfreq_naive r) i =
       Some (div (of_int (Z.of_nat (events_count ds - i)))
                 (Flares.expt_total r))) /\
    (events_count ds = 5%nat -> Flares.expt_total r = of_int 10 ->
       Flares.cumfreq_naive r =
       [div (of_int 5) (of_int 10); div (of_int 4) (of_int 10);
        div (of_int 3) (of_int 10); div (of_int 2) (of_int 10);
        div (of_int 1) (of_int 10)]).
Proof.
  intros Hne Hc.
  destruct (init_total ds Hne) as (r & E). exists r.
  destruct (init_inv ds r E) as
    (_ & _ & _ & _ & _ & _ & _ & En & ET & _ & Enaive & _).
  assert (Hn : Flares.n_total r = events_count ds).
  { rewrite En. now apply n_total_constructed. }
  split; [exact E|]. split; [exact Hn|]. split; [|split].
  - rewrite ET. apply np_sum_is_sum.
  - intros i Hi. rewrite <- Hn in *. rewrite Enaive.
    fold (cumno (Flares.n_total r)).
    rewrite nth_error_map, cumno_nth by exact Hi. reflexivity.
  - intros H5 HT. rewrite <- Hn in H5. rewrite Enaive, H5, HT. reflexivity.
Qed.

(** *** The corrected frequency *)

Lemma last_cons_default (A : Type) (s : A) (t : list A) (d : A) :
  last (s :: t) d = last t s.
Proof.
  revert s d; induction t as [|y t IH]; intros s d; [reflexivity|].
  change (last (s :: y :: t) d) with (last (y :: t) d).
  rewrite (IH y d), (IH y s). reflexivity.
Qed.

Lemma cumsum_from_snoc (acc : num) (a : list num) (x : num) :
  np.cumsum_from acc (a ++ [x]) =
  np.cumsum_from acc a ++ [add (last (np.cumsum_from acc a) acc) x].
Proof.
  revert acc; induction a as [|y a IH]; intros acc.
  - reflexivity.
  - cbn [app np.cumsum_from]. rewrite IH, last_cons_default. reflexivity.
Qed.

Lemma rev_cons_head (A : Type) (y : A) (t : list A) :
  exists tl, rev (y :: t) = last t y :: tl.
Proof.
  destruct t as [|z t'] using rev_ind.
  - exists []. reflexivity.
  - exists (rev (y :: t')).
    rewrite last_last, app_comm_cons, rev_unit. reflexivity.
Qed.

Lemma cumsum_snoc (a : list num) (x : num) :
  np.cumsum (a ++ [x]) =
  match rev (np.cumsum a) with
  | [] => [x]
  | s :: _ => np.cumsum a ++ [add s x]
  end.
Proof.
  destruct a as [|y a]; [reflexivity|].
  cbn [app np.cumsum]. rewrite cumsum_from_snoc.
  destruct (rev_cons_head _ y (np.cumsum_from y a)) as (tl & ->).
  reflexivity.
Qed.

(** The constructor sums the reversed terms and reverses the result; that
    is the running sum taken from the top down. *)
Lemma rev_cumsum_rev (terms : list num) :
  rev (np.cumsum (rev terms)) = running_sums_topdown terms.
Proof.
  induction terms as [|x r IH]; [reflexivity|].
  cbn [rev running_sums_topdown]. rewrite cumsum_snoc, <- IH.
  destruct (rev (np.cumsum (rev r))) as [|s above] eqn:E.
  - reflexivity.
  - rewrite rev_unit, E. reflexivity.
Qed.

(** The corrected frequency is the running sum, multiplied by the total
    exposure and divided by it again, in the arithmetic of the numbers. *)
Lemma cumfreq_corrected_rescaled (ds : list dataset) (r : Flares.t num) :
  Flares.__init__ ds = Ok r ->
  Flares.cumfreq_corrected r =
  map (fun s => div (mul s (Flares.expt_total r)) (Flares.expt_total r))
      (running_sums_topdown (inverse_exposures (Flares.expt_detectable r))).
Proof.
  intros E.
  destruct (init_inv ds r E) as
    (_ & _ & _ & _ & _ & _ & _ & _ & _ & _ & _ & Ecorr).
  rewrite Ecorr. unfold inverse_exposures.
  rewrite <- rev_cumsum_rev, <- map_rev, map_map. reflexivity.
Qed.

(** *** One dataset *)

Lemma take_singleton (x : num) (idx : list Z) :
  Forall (fun i => i = 0%Z \/ i = (-1)%Z) idx ->
  np.take [x] idx = Ok (repeat x (length idx)).
Proof.
  induction 1 as [|i idx [-> | ->] _ IH]; cbn [np.take length repeat].
  - reflexivity.
  - rewrite IH. reflexivity.
  - rewrite IH. reflexivity.
Qed.

(** With a single dataset the detectable exposure is the total exposure at
    every index: the one cumulative sum is found at index 0 and at
    index -1. *)
Lemma single_dataset_detectable (d : dataset) (r : Flares.t num) :
  Flares.__init__ [d] = Ok r ->
  Flares.expt_total r = FlareDataset.expt d /\
  Flares.expt_detectable r =
    repeat (FlareDataset.expt d) (length (FlareDataset.e d)).
Proof.
  intros E.
  destruct (init_inv [d] r E) as
    (elims & expts & _ & Eel & Eex & Edet & _ & _ & ET & _ & _ & _).
  split; [exact ET|].
  assert (Eel' : sorted_elims [d] = Ok [FlareDataset.elim d]) by reflexivity.
  assert (Eex' : sorted_expts [d] = Ok [FlareDataset.expt d]) by reflexivity.
  rewrite Eel' in Eel. rewrite Eex' in Eex.
  inversion Eel; inversion Eex; subst elims expts.
  cbn [np.cumsum np.cumsum_from] in Edet.
  rewrite take_singleton in Edet.
  - inversion Edet as [Hd]. unfold np.searchsorted_right, energies.
    rewrite !length_map, sort_length. cbn [map concat].
    now rewrite app_nil_r.
  - apply Forall_forall. intros i Hi.
    unfold np.searchsorted_right in Hi. rewrite map_map in Hi.
    apply in_map_iff in Hi as (v & <- & _).
    cbn [np.searchsorted_right1].
    destruct (lt v (FlareDataset.elim d)); auto.
Qed.

End GenericClaims.

(** * The detectable exposure when the order is a strict weak order *)

Section OrderedNumbers.
Context {num : Type} `{Numeric num}.

Local Abbreviation dataset := (FlareDataset.t num).

Hypothesis lt_asym : forall a b : num, lt a b = true -> lt b a = false.
Hypothesis lt_negtrans :
  forall a b c : num, lt a b = false -> lt b c = false -> lt a c = false.

(** *** [argsort] followed by indexing is sorting *)

Lemma insert_by_map (A B : Type) (g : A -> B) (key : B -> num)
    (x : A) (l : list A) :
  map g (np.insert_by (fun a => key (g a)) x l) =
  np.insert_by key (g x) (map g l).
Proof.
  induction l as [|y r IH]; [reflexivity|].
  cbn [np.insert_by map]. destruct (lt (key (g x)) (key (g y))).
  - reflexivity.
  - cbn [map]. now rewrite IH.
Qed.

Lemma sort_by_map (A B : Type) (g : A -> B) (key : B -> num) (l : list A) :
  map g (np.sort_by (fun a => key (g a)) l) = np.sort_by key (map g l).
Proof.
  unfold np.sort_by. change (@nil B) with (map g []).
  generalize (@nil A) as acc.
  induction l as [|x l IH]; intros acc; [reflexivity|].
  cbn [fold_left map]. rewrite IH, insert_by_map. reflexivity.
Qed.

Lemma combine_map_fst (A B C : Type) (f : A -> B) (l : list A) (l' : list C) :
  combine (map f l) l' = map (fun p => (f (fst p), snd p)) (combine l l').
Proof.
  revert l'; induction l as [|x l IH]; intros [|y l']; cbn; auto.
  now rewrite IH.
Qed.

Lemma map_fst_combine_arange (A : Type) (a : list A) :
  map fst (combine a (np.arange (length a))) = a.
Proof.
  unfold np.arange. generalize 0%nat as s.
  induction a as [|x a IH]; intros s; [reflexivity|].
  cbn. now rewrite IH.
Qed.

Lemma arange_nth (n k : nat) :
  (k < n)%nat -> nth k (np.arange n) 0%Z = Z.of_nat k.
Proof.
  intros Hk. unfold np.arange.
  change 0%Z with (Z.of_nat 0).
  rewrite (map_nth Z.of_nat (seq 0 n) 0%nat k), seq_nth by exact Hk.
  reflexivity.
Qed.

Lemma combine_arange_indexed (A : Type) (a : list A) :
  Forall (indexed a) (combine a (np.arange (length a))).
Proof.
  apply Forall_forall. intros [x i] Hin.
  apply (In_nth _ _ (x, 0%Z)) in Hin as (k & Hk & Ek).
  rewrite length_combine, arange_length, Nat.min_id in Hk.
  rewrite combine_nth in Ek by now rewrite arange_length.
  rewrite arange_nth in Ek by exact Hk.
  injection Ek as Ex Ei. subst i.
  pose proof (nth_error_nth' a x Hk) as Hn. rewrite Ex in Hn.
  unfold indexed. cbn [fst snd]. rewrite Nat2Z.id. split; [lia | exact Hn].
Qed.

Lemma take_indexed (A : Type) (a : list A) (s : list (A * Z)) :
  Forall (indexed a) s -> np.take a (map snd s) = Ok (map fst s).
Proof.
  induction 1 as [|[x i] s (Hi & Hx) _ IH]; [reflexivity|].
  cbn [map np.take fst snd] in *. rewrite IH.
  unfold np.getitem.
  assert (Hlen : (i < Z.of_nat (length a))%Z).
  { assert (Hn : nth_error a (Z.to_nat i) <> None) by congruence.
    apply nth_error_Some in Hn. lia. }
  destruct (Z.ltb_spec i 0) as [Hneg|_]; [lia|].
  destruct (Z.leb_spec 0 i) as [_|Hneg]; [|lia].
  destruct (Z.ltb_spec i (Z.of_nat (length a))) as [_|Hge]; [|lia].
  cbn [andb]. rewrite Hx. reflexivity.
Qed.

(** The datasets in ascending order of detection limit. *)
Lemma take_argsort (f : dataset -> num) (ds : list dataset) :
  np.take (map f ds) (np.argsort (map FlareDataset.elim ds)) =
  Ok (map f (np.sort_by FlareDataset.elim ds)).
Proof.
  set (pairs := combine ds (np.arange (length ds))).
  set (sorted := np.sort_by (fun p => FlareDataset.elim (fst p)) pairs).
  assert (Hidx : np.argsort (map FlareDataset.elim ds) = map snd sorted).
  { unfold np.argsort. rewrite length_map, combine_map_fst.
    fold pairs.
    rewrite <- (sort_by_map _ _
                  (fun p : dataset * Z => (FlareDataset.elim (fst p), snd p))
                  fst pairs).
    cbn [fst]. fold sorted. rewrite map_map. reflexivity. }
  assert (Hds : np.sort_by FlareDataset.elim ds = map fst sorted).
  { unfold sorted. rewrite (sort_by_map _ _ fst FlareDataset.elim pairs).
    unfold pairs. now rewrite map_fst_combine_arange. }
  rewrite Hidx, Hds.
  replace (map snd sorted)
    with (map snd (map (fun p : dataset * Z => (f (fst p), snd p)) sorted))
    by (rewrite map_map; reflexivity).
  replace (map f (map fst sorted))
    with (map fst (map (fun p : dataset * Z => (f (fst p), snd p)) sorted))
    by (rewrite !map_map; reflexivity).
  apply take_indexed. rewrite Forall_map.
  assert (Hin : Forall (indexed ds) sorted).
  { apply Forall_forall. intros p Hp.
    apply (Permutation_in _ (sort_by_perm _ _ _)) in Hp.
    revert p Hp. apply Forall_forall, combine_arange_indexed. }
  revert Hin. apply Forall_impl. intros [d i] (Hi & Hd).
  split; [exact Hi|]. cbn [fst snd] in *.
  rewrite nth_error_map, Hd. reflexivity.
Qed.

(** *** Sorting sorts *)

Lemma insert_by_ascending (A : Type) (key : A -> num) (x : A) (l : list A) :
  ascending key l -> ascending key (np.insert_by key x l).
Proof.
  induction l as [|y r IH]; intros Hl.
  - cbn. auto.
  - cbn [np.insert_by]. destruct (lt (key x) (key y)) eqn:E.
    + split; [now apply lt_asym | exact Hl].
    + destruct Hl as (Hy & Hr). split; [|now apply IH].
      destruct r as [|z r']; [exact E|].
      cbn [np.insert_by]. destruct (lt (key x) (key z)); assumption.
Qed.

Lemma sort_by_ascending (A : Type) (key : A -> num) (l : list A) :
  ascending key (np.sort_by key l).
Proof.
  unfold np.sort_by.
  assert (Hacc : ascending key (@nil A)) by exact I.
  revert Hacc. generalize (@nil A) as acc.
  induction l as [|x l IH]; intros acc Hacc; [exact Hacc|].
  cbn [fold_left]. now apply IH, insert_by_ascending.
Qed.

(** *** Searching a sorted array counts *)

Lemma ascending_above (A : Type) (key : A -> num) (v : num)
    (x : A) (r : list A) :
  ascending key (x :: r) -> lt v (key x) = true ->
  filter (fun a => negb (lt v (key a))) (x :: r) = [].
Proof.
  revert x; induction r as [|y r IH]; intros x (Hy & Hr) Hx;
    cbn [filter]; rewrite Hx; cbn [negb]; [reflexivity|].
  apply IH; [exact Hr|].
  destruct (lt v (key y)) eqn:E; [reflexivity|].
  rewrite (lt_negtrans _ _ _ E Hy) in Hx. discriminate Hx.
Qed.

Lemma searchsorted_firstn (A : Type) (key : A -> num) (l : list A) (v : num) :
  ascending key l ->
  firstn (Z.to_nat (np.searchsorted_right1 (map key l) v)) l =
  filter (fun a => negb (lt v (key a))) l.
Proof.
  induction l as [|x r IH]; intros Hl; [reflexivity|].
  cbn [map np.searchsorted_right1].
  destruct (lt v (key x)) eqn:E.
  - rewrite (ascending_above A key v x r Hl E). reflexivity.
  - pose proof (searchsorted_right1_bounds (map key r) v) as Hb.
    replace (Z.to_nat (1 + np.searchsorted_right1 (map key r) v))
      with (S (Z.to_nat (np.searchsorted_right1 (map key r) v))) by lia.
    cbn [firstn filter]. rewrite E. cbn [negb]. f_equal. apply IH, Hl.
Qed.

(** *** Entries of a cumulative sum *)

Lemma cumsum_from_nth (acc : num) (a : list num) (j : nat) :
  (j < length a)%nat ->
  nth_error (np.cumsum_from acc a) j =
  Some (fold_left add (firstn (S j) a) acc).
Proof.
  revert acc j; induction a as [|x r IH]; intros acc j Hj.
  - inversion Hj.
  - destruct j as [|j]; [reflexivity|].
    cbn [np.cumsum_from nth_error]. rewrite IH by (cbn in Hj; lia).
    reflexivity.
Qed.

Lemma cumsum_nth (a : list num) (j : nat) :
  (j < length a)%nat ->
  nth_error (np.cumsum a) j = Some (np.sum (firstn (S j) a)).
Proof.
  destruct a as [|x r]; intros Hj; [inversion Hj|].
  destruct j as [|j]; [reflexivity|].
  cbn [np.cumsum nth_error]. rewrite cumsum_from_nth by (cbn in Hj; lia).
  reflexivity.
Qed.

Lemma take_nth (A : Type) (a : list A) (idx : list Z) (l : list A)
    (i : nat) (j : Z) :
  np.take a idx = Ok l -> nth_error idx i = Some j ->
  exists x, np.getitem a j = Ok x /\ nth_error l i = Some x.
Proof.
  revert l i; induction idx as [|k idx IH]; intros l i E Hi.
  - destruct i; discriminate Hi.
  - cbn [np.take] in E.
    apply bind_ok_inv in E as (x & Ex & E).
    apply bind_ok_inv in E as (xs & Exs & E).
    inversion E; subst l; clear E.
    destruct i as [|i].
    + inversion Hi; subst k. exists x. auto.
    + cbn [nth_error] in *. now apply (IH xs).
Qed.

Lemma getitem_nonneg (A : Type) (a : list A) (j : Z) (x : A) :
  (0 <= j)%Z -> np.getitem a j = Ok x ->
  nth_error a (Z.to_nat j) = Some x.
Proof.
  unfold np.getitem. intros Hj.
  destruct (Z.ltb_spec j 0) as [Hneg|_]; [lia|].
  destruct (_ && _); [|discriminate].
  destruct (nth_error a (Z.to_nat j)); [|discriminate].
  now intros [= ->].
Qed.


(** *** The detectable exposure *)

(** The lookup of line 61, on the datasets in ascending order of limit. *)
Lemma init_detectable (ds : list dataset) (r : Flares.t num) :
  Flares.__init__ ds = Ok r ->
  np.take (np.cumsum (map FlareDataset.expt (np.sort_by FlareDataset.elim ds)))
          (map (fun i => i - 1)%Z
               (np.searchsorted_right
                  (map FlareDataset.elim (np.sort_by FlareDataset.elim ds))
                  (Flares.e r)))
  = Ok (Flares.expt_detectable r).
Proof.
  intros E.
  destruct (init_inv ds r E) as
    (elims & expts & _ & Eel & Eex & Edet & _ & _ & _ & Ee & _ & _).
  unfold sorted_elims in Eel. unfold sorted_expts in Eex.
  rewrite take_argsort in Eel, Eex.
  inversion Eel; inversion Eex; subst elims expts.
  rewrite Ee. exact Edet.
Qed.

Lemma detectable_entry (ds : list dataset) (r : Flares.t num)
    (i : nat) (m : num) :
  Flares.__init__ ds = Ok r ->
  nth_error (Flares.e r) i = Some m ->
  exists x,
    np.getitem
      (np.cumsum (map FlareDataset.expt (np.sort_by FlareDataset.elim ds)))
      (np.searchsorted_right1
         (map FlareDataset.elim (np.sort_by FlareDataset.elim ds)) m - 1)
    = Ok x /\
    nth_error (Flares.expt_detectable r) i = Some x.
Proof.
  intros E Hm.
  apply (take_nth _ _ _ _ i _ (init_detectable ds r E)).
  unfold np.searchsorted_right. rewrite !nth_error_map, Hm. reflexivity.
Qed.

(** Where some dataset could have detected the event, the stored
    detectable exposure is the sum of the exposure times of the datasets
    whose detection limit is at most the energy of the event, added in
    ascending order of limit.  A limit equal to the energy counts. *)
Theorem detectable_exposure_covered (ds : list dataset) (r : Flares.t num)
    (i : nat) (m : num) :
  Flares.__init__ ds = Ok r ->
  nth_error (Flares.e r) i = Some m ->
  covered ds m ->
  nth_error (Flares.expt_detectable r) i =
  Some (detectable_exposure_doc (np.sort_by FlareDataset.elim ds) m).
Proof.
  intros E Hm (d & Hd & Hdet).
  destruct (detectable_entry ds r i m E Hm) as (x & Hx & ->). f_equal.
  set (L := np.sort_by FlareDataset.elim ds) in *.
  set (k := np.searchsorted_right1 (map FlareDataset.elim L) m) in *.
  pose proof (searchsorted_firstn _ FlareDataset.elim L m
                (sort_by_ascending _ _ ds)) as Hk.
  fold k in Hk. fold (detects m) in Hk.
  assert (Hpos : (1 <= k)%Z).
  { assert (Hin : In d (filter (detects m) L)).
    { apply filter_In. split; [|exact Hdet].
      apply (Permutation_in _ (Permutation_sym (sort_by_perm _ _ ds))), Hd. }
    rewrite <- Hk in Hin. destruct (Z.to_nat k) eqn:Ek; [destruct Hin | lia]. }
  apply getitem_nonneg in Hx; [|lia].
  assert (Hlt : (Z.to_nat (k - 1) < length (map FlareDataset.expt L))%nat).
  { rewrite <- cumsum_length. apply nth_error_Some. congruence. }
  rewrite cumsum_nth in Hx by exact Hlt.
  replace (S (Z.to_nat (k - 1))) with (Z.to_nat k) in Hx by lia.
  rewrite firstn_map, Hk in Hx.
  unfold detectable_exposure_doc. congruence.
Qed.


(** *** Monotonicity *)

Lemma lt_irrefl (a : num) : lt a a = false.
Proof.
  destruct (lt a a) eqn:E; [|reflexivity].
  rewrite (lt_asym a a E) in E. discriminate E.
Qed.

Lemma ascending_head (A : Type) (key : A -> num) (x : A) (r : list A) :
  ascending key (x :: r) ->
  Forall (fun y => lt (key y) (key x) = false) r.
Proof.
  revert x; induction r as [|y r IH]; intros x (Hy & Hr); constructor.
  - exact Hy.
  - specialize (IH y Hr). revert IH. apply Forall_impl.
    intros z Hz. exact (lt_negtrans _ _ _ Hz Hy).
Qed.

Lemma ascending_nth (A : Type) (key : A -> num) (l : list A)
    (i j : nat) (x y : A) :
  ascending key l -> (i <= j)%nat ->
  nth_error l i = Some x -> nth_error l j = Some y ->
  lt (key y) (key x) = false.
Proof.
  revert i j; induction l as [|z l IH]; intros i j Hl Hij Hx Hy.
  - destruct i; discriminate Hx.
  - destruct i as [|i].
    + injection Hx as ->. destruct j as [|j].
      * injection Hy as ->. apply lt_irrefl.
      * pose proof (ascending_head A key x l Hl) as Hall.
        rewrite Forall_forall in Hall. apply Hall.
        eapply nth_error_In, Hy.
    + destruct j as [|j]; [lia|].
      apply (IH i j); [apply Hl | lia | exact Hx | exact Hy].
Qed.

Lemma detects_mono (m m' : num) (d : dataset) :
  lt m' m = false -> detects m d = true -> detects m' d = true.
Proof.
  unfold detects. intros Hm Hd.
  apply negb_true_iff in Hd. apply negb_true_iff.
  exact (lt_negtrans _ _ _ Hm Hd).
Qed.

End OrderedNumbers.

(** * The constructor in exact arithmetic *)

Section ExactClaims.
Import Exact.
Local Open Scope Qc_scope.

Local Abbreviation dataset := (FlareDataset.t Qc).

Lemma rescale_cancels (s T : Qc) : T <> 0 -> s * T / T = s.
Proof. intros HT. field. exact HT. Qed.

Lemma fold_add_positive (r : list Qc) (x : Qc) :
  0 < x -> Forall (fun y => 0 < y) r -> 0 < fold_left Qcplus r x.
Proof.
  revert x; induction r as [|y r IH]; intros x Hx Hr; simpl.
  - exact Hx.
  - inversion Hr as [|? ? Hy Hr']; subst. apply IH; [|exact Hr'].
    apply Qclt_le_trans with x; [exact Hx|].
    replace x with (x + 0) at 1 by ring.
    apply Qcplus_le_compat; [apply Qcle_refl | now apply Qclt_le_weak].
Qed.

Lemma sum_positive (a : list Qc) :
  a <> [] -> Forall (fun y => 0 < y) a -> 0 < np.sum a.
Proof.
  destruct a as [|x r]; [congruence|]. intros _ Ha.
  inversion Ha; subst. now apply fold_add_positive.
Qed.

Lemma of_int_succ (z : Z) : of_int (z + 1) = (of_int z + 1)%Qc.
Proof.
  apply Qc_is_canon. cbn [of_int rational]. unfold from_int, Qcplus. cbn [this Q2Qc].
  rewrite !Qred_correct, inject_Z_plus. reflexivity.
Qed.

Lemma cumno_S (n : nat) : cumno (S n) = Z.of_nat (S n) :: cumno n.
Proof.
  unfold cumno, np.arange.
  rewrite seq_S, map_app. cbn [map Nat.add]. rewrite rev_unit.
  cbn [map]. f_equal. lia.
Qed.

(** Running sums of a constant term [c]: [n c, ..., 2 c, c]. *)
Lemma running_sums_constant (c : Qc) (n : nat) :
  running_sums_topdown (repeat c n) =
  map (fun k => of_int k * c) (cumno n).
Proof.
  induction n as [|n IH]; [reflexivity|].
  cbn [repeat running_sums_topdown]. rewrite IH, cumno_S. cbn [map].
  destruct n as [|n].
  - cbn [cumno np.arange seq map rev]. f_equal.
    change (of_int (Z.of_nat 1)) with 1. cbn [of_int rational]. ring.
  - rewrite cumno_S. cbn [map]. f_equal.
    replace (Z.of_nat (S (S n))) with (Z.of_nat (S n) + 1)%Z by lia.
    rewrite of_int_succ. cbn [add of_int rational]. ring.
Qed.

Lemma cumsum_from_positive (acc : Qc) (a : list Qc) :
  0 < acc -> Forall (fun y => 0 < y) a ->
  Forall (fun y => 0 < y) (np.cumsum_from acc a).
Proof.
  intros Hacc Ha. revert acc Hacc.
  induction Ha as [|x a Hx Ha IH]; intros acc Hacc; cbn [np.cumsum_from].
  - constructor.
  - assert (Hs : 0 < add acc x)
      by (apply (fold_add_positive [x] acc Hacc); now constructor).
    constructor; [exact Hs | now apply IH].
Qed.

Lemma cumsum_positive (a : list Qc) :
  Forall (fun y => 0 < y) a -> Forall (fun y => 0 < y) (np.cumsum a).
Proof.
  intros Ha. destruct Ha as [|x a Hx Ha]; cbn [np.cumsum]; constructor.
  - exact Hx.
  - now apply cumsum_from_positive.
Qed.

(** With positive exposure times no division by zero occurs: the total
    exposure and every detectable exposure are positive. *)
Lemma exposures_positive (ds : list dataset) (r : Flares.t Qc) :
  Forall (fun d => 0 < FlareDataset.expt d) ds ->
  Flares.__init__ ds = Ok r ->
  0 < Flares.expt_total r /\
  Forall (fun d => 0 < d) (Flares.expt_detectable r).
Proof.
  intros Hpos E.
  destruct (init_inv ds r E) as
    (elims & expts & Hne & _ & Eex & Edet & _ & _ & ET & _ & _ & _).
  assert (Hall : Forall (fun y => 0 < y) (map FlareDataset.expt ds))
    by now rewrite Forall_map.
  split.
  - rewrite ET. apply sum_positive; [|exact Hall].
    destruct ds; [congruence | discriminate].
  - assert (Hex : Forall (fun y => 0 < y) expts).
    { rewrite Forall_forall in Hall |- *. intros y Hy.
      apply Hall. exact (take_In _ _ _ _ y Eex Hy). }
    apply cumsum_positive in Hex.
    rewrite Forall_forall in Hex |- *. intros y Hy.
    apply Hex. exact (take_In _ _ _ _ y Edet Hy).
Qed.

(** C7, as the code behaves: in every arithmetic, double precision
    included, the corrected frequency at index [i] is the top-down running
    sum of [1/detectable_exposure] over the positions [j >= i], multiplied
    by the total exposure and then divided by it, each operation carried
    out in that arithmetic; in exact arithmetic, for a total exposure
    other than zero, that is the plain running sum. *)
Theorem cumfreq_corrected_is_running_sum :
  (forall (num : Type) (N : Numeric num)
          (ds : list (FlareDataset.t num)) (r : Flares.t num),
     Flares.__init__ ds = Ok r ->
     Flares.cumfreq_corrected r =
     map (fun s => div (mul s (Flares.expt_total r)) (Flares.expt_total r))
         (running_sums_topdown
            (inverse_exposures (Flares.expt_detectable r)))) /\
  (forall (ds : list dataset) (r : Flares.t Qc),
     Flares.__init__ ds = Ok r ->
     Flares.expt_total r <> 0 ->
     Flares.cumfreq_corrected r =
     running_sums_topdown (inverse_exposures (Flares.expt_detectable r))).
Proof.
  split.
  - intros num N ds r E. exact (cumfreq_corrected_rescaled ds r E).
  - intros ds r E HT. rewrite (cumfreq_corrected_rescaled ds r E).
    rewrite <- (map_id (running_sums_topdown _)) at 2.
    apply map_ext. intros s. now apply rescale_cancels.
Qed.

(** One dataset in any arithmetic: the count, the total exposure, the
    detectable exposures and the two curves. *)
Lemma single_dataset_fields (num : Type) (N : Numeric num)
    (l x : num) (es : list num) (r : Flares.t num) :
  Flares.__init__ [FlareDataset.__init__ l x es] = Ok r ->
  Flares.n_total r = length es /\
  Flares.expt_total r = x /\
  Flares.expt_detectable r = repeat x (length es) /\
  Flares.cumfreq_naive r =
    map (fun k => div (of_int k) x) (cumno (length es)) /\
  Flares.cumfreq_corrected r =
    map (fun s => div (mul s x) x)
        (running_sums_topdown (repeat (div one x) (length es))).
Proof.
  intros E.
  destruct (single_dataset_detectable _ r E) as (ET & Ed).
  destruct (init_inv _ r E) as
    (_ & _ & _ & _ & _ & _ & _ & En & _ & _ & Enaive & _).
  cbn in ET, Ed, En.
  repeat split; try assumption.
  - rewrite Enaive, ET, En. reflexivity.
  - rewrite (cumfreq_corrected_rescaled _ r E), ET, Ed.
    unfold inverse_exposures. now rewrite map_repeat.
Qed.

(** C8, as the code behaves: with exactly one dataset, of positive
    exposure time [T] and with [n] events, in every arithmetic, double
    precision included, the detectable exposure is the total exposure [T]
    at every index, the naive frequency at index [i] is the quotient
    [(n - i) / T] and the corrected frequency is the running sum of
    [n - i] terms [1/T], multiplied by [T] and divided by [T]; in exact
    arithmetic the two frequencies are equal elementwise. *)
Theorem single_dataset_corrected_is_naive :
  (forall (num : Type) (N : Numeric num) (l x : num) (es : list num),
     lt zero x = true ->
     exists r, Flares.__init__ [FlareDataset.__init__ l x es] = Ok r /\
       Flares.n_total r = length es /\
       Flares.expt_total r = x /\
       Flares.expt_detectable r =
         repeat (Flares.expt_total r) (Flares.n_total r) /\
       Flares.cumfreq_naive r =
         map (fun k => div (of_int k) x) (cumno (length es)) /\
       Flares.cumfreq_corrected r =
         map (fun s => div (mul s x) x)
             (running_sums_topdown (repeat (div one x) (length es)))) /\
  (forall (l x : Qc) (es : list Qc),
     0 < x ->
     exists r, Flares.__init__ [FlareDataset.__init__ l x es] = Ok r /\
       Flares.cumfreq_corrected r = Flares.cumfreq_naive r).
Proof.
  split.
  - intros num N l x es _.
    destruct (init_total [FlareDataset.__init__ l x es]) as (r & E);
      [discriminate|].
    exists r. split; [exact E|].
    destruct (single_dataset_fields num N l x es r E)
      as (En & ET & Ed & Enaive & Ecorr).
    repeat split; try assumption. now rewrite ET, En.
  - intros l x es Hx.
    destruct (init_total [FlareDataset.__init__ l x es]) as (r & E);
      [discriminate|].
    exists r. split; [exact E|].
    destruct (single_dataset_fields Qc rational l x es r E)
      as (_ & _ & _ & Enaive & Ecorr).
    assert (HT : x <> 0) by now apply not_eq_sym, Qclt_not_eq.
    rewrite Enaive, Ecorr, running_sums_constant, map_map.
    apply map_ext. intros k.
    rewrite rescale_cancels by exact HT.
    unfold one. cbn [div mul of_int rational].
    change (from_int 1) with 1. field. exact HT.
Qed.

(** *** The detectable exposure over the rationals *)

Lemma np_lt_false (a b : Qc) : lt a b = false <-> b <= a.
Proof.
  cbn [lt rational]. unfold np_lt, Qcle.
  rewrite negb_false_iff. apply Qle_bool_iff.
Qed.

Lemma exact_lt_asym (a b : Qc) : lt a b = true -> lt b a = false.
Proof.
  intros Hab. apply np_lt_false.
  destruct (Qclt_le_dec a b) as [Hlt|Hle]; [now apply Qclt_le_weak|].
  apply np_lt_false in Hle. congruence.
Qed.

Lemma exact_lt_negtrans (a b c : Qc) :
  lt a b = false -> lt b c = false -> lt a c = false.
Proof.
  rewrite !np_lt_false. intros Hba Hcb. now apply Qcle_trans with b.
Qed.

Lemma sum_cons (x : Qc) (r : list Qc) : np.sum (x :: r) = x + np.sum r.
Proof.
  cbn [np.sum]. revert x; induction r as [|y r IH]; intros x.
  - cbn [fold_left np.sum]. change (@zero Qc rational) with 0. ring.
  - cbn [fold_left np.sum].
    rewrite (IH (add x y)), (IH y). cbn [add rational]. ring.
Qed.

Lemma sum_perm (a b : list Qc) : Permutation a b -> np.sum a = np.sum b.
Proof.
  induction 1 as [|x a b _ IH|x y a|a b c _ IH1 _ IH2].
  - reflexivity.
  - now rewrite !sum_cons, IH.
  - rewrite !sum_cons. ring.
  - now rewrite IH1.
Qed.

Lemma filter_perm (A : Type) (f : A -> bool) (a b : list A) :
  Permutation a b -> Permutation (filter f a) (filter f b).
Proof.
  induction 1 as [|x a b _ IH|x y a|a b c _ IH1 _ IH2]; cbn [filter].
  - constructor.
  - destruct (f x); [now constructor | exact IH].
  - destruct (f x), (f y); try apply Permutation_refl. constructor.
  - now apply perm_trans with (filter f b).
Qed.

(** In exact arithmetic the order of the additions does not matter: for a
    covered event, the stored detectable exposure is the sum of the
    exposure times over the datasets whose detection limit is at most the
    energy of the event. *)
Theorem detectable_exposure_covered_exact (ds : list dataset)
    (r : Flares.t Qc) (i : nat) (m : Qc) :
  Flares.__init__ ds = Ok r ->
  nth_error (Flares.e r) i = Some m ->
  covered ds m ->
  nth_error (Flares.expt_detectable r) i =
  Some (detectable_exposure_doc ds m).
Proof.
  intros E Hm Hc.
  rewrite (detectable_exposure_covered exact_lt_asym exact_lt_negtrans
             ds r i m E Hm Hc).
  f_equal. unfold detectable_exposure_doc.
  apply sum_perm, Permutation_map, filter_perm, sort_by_perm.
Qed.

Lemma sum_filter_le (p q : dataset -> bool) (l : list dataset) :
  Forall (fun d => 0 <= FlareDataset.expt d) l ->
  (forall d, p d = true -> q d = true) ->
  np.sum (map FlareDataset.expt (filter p l)) <=
  np.sum (map FlareDataset.expt (filter q l)).
Proof.
  intros Hl Hpq. induction Hl as [|d l Hd _ IH]; [apply Qcle_refl|].
  cbn [filter]. destruct (p d) eqn:Ep.
  - rewrite (Hpq d Ep). cbn [map]. rewrite !sum_cons.
    apply Qcplus_le_compat; [apply Qcle_refl | exact IH].
  - destruct (q d); [|exact IH]. cbn [map]. rewrite sum_cons.
    apply Qcle_trans with (0 + np.sum (map FlareDataset.expt (filter q l))).
    + now rewrite Qcplus_0_l.
    + apply Qcplus_le_compat; [exact Hd | apply Qcle_refl].
Qed.

(** X7: where every event could have been detected by some dataset and no
    exposure time is negative, the detectable exposure never decreases
    with the energy. *)
Theorem detectable_exposure_nondecreasing (ds : list dataset)
    (r : Flares.t Qc) :
  Flares.__init__ ds = Ok r ->
  Forall (covered ds) (Flares.e r) ->
  Forall (fun d => 0 <= FlareDataset.expt d) ds ->
  nondecreasing (Flares.expt_detectable r).
Proof.
  intros E Hcov Hpos i j x y Hij Hx Hy.
  destruct (init_inv ds r E) as
    (elims & expts & _ & _ & _ & Edet & _ & _ & _ & Ee & _ & _).
  apply take_length in Edet.
  unfold np.searchsorted_right in Edet.
  rewrite !length_map, <- Ee in Edet.
  assert (Hi : (i < length (Flares.e r))%nat).
  { rewrite <- Edet. apply nth_error_Some. congruence. }
  assert (Hj : (j < length (Flares.e r))%nat).
  { rewrite <- Edet. apply nth_error_Some. congruence. }
  destruct (nth_error (Flares.e r) i) as [mi|] eqn:Emi;
    [|apply nth_error_None in Emi; lia].
  destruct (nth_error (Flares.e r) j) as [mj|] eqn:Emj;
    [|apply nth_error_None in Emj; lia].
  rewrite Forall_forall in Hcov.
  rewrite (detectable_exposure_covered_exact ds r i mi E Emi) in Hx
    by (eapply Hcov, nth_error_In, Emi).
  rewrite (detectable_exposure_covered_exact ds r j mj E Emj) in Hy
    by (eapply Hcov, nth_error_In, Emj).
  injection Hx as <-. injection Hy as <-.
  apply np_lt_false. unfold detectable_exposure_doc.
  apply sum_filter_le; [exact Hpos|].
  intros d. apply (detects_mono exact_lt_negtrans).
  rewrite Ee in Emi, Emj. unfold energies, np.sort in Emi, Emj.
  apply (ascending_nth exact_lt_asym exact_lt_negtrans _ (fun v => v)
           _ i j mi mj (sort_by_ascending exact_lt_asym _ _ _) Hij Emi Emj).
Qed.

End ExactClaims.

(** * The constructor in double precision *)

Section DoubleClaims.
Import F64 Scenario.

(** *** NumPy's order on doubles is a strict weak order *)

Lemma np_lt_spec (a b : float) :
  np_lt a b = spec_lt (Prim2SF a) (Prim2SF b).
Proof.
  unfold np_lt, spec_lt, is_nan, spec_is_nan.
  now rewrite FloatAxioms.ltb_spec, !FloatAxioms.eqb_spec.
Qed.

Ltac compare_cases :=
  repeat match goal with
  | |- context [Z.compare ?a ?b] => destruct (Z.compare_spec a b); subst
  | |- context [Pos.compare_cont Eq ?a ?b] =>
      change (Pos.compare_cont Eq a b) with (Pos.compare a b);
      destruct (Pos.compare_spec a b); subst
  | H : context [Z.compare ?a ?b] |- _ =>
      destruct (Z.compare_spec a b); subst
  | H : context [Pos.compare_cont Eq ?a ?b] |- _ =>
      change (Pos.compare_cont Eq a b) with (Pos.compare a b) in H;
      destruct (Pos.compare_spec a b); subst
  end.

Lemma spec_lt_asym (x y : spec_float) :
  spec_lt x y = true -> spec_lt y x = false.
Proof.
  unfold spec_lt, spec_is_nan, SFltb, SFeqb.
  destruct x as [[]|[]| |[] mx ex], y as [[]|[]| |[] my ey]; cbn;
    try reflexivity; try discriminate;
    rewrite ?Z.compare_refl, ?Pos.compare_cont_refl; cbn;
    try reflexivity; try discriminate;
    intros Hxy; compare_cases; cbn in *;
    try reflexivity; try discriminate; try lia.
Qed.

Lemma spec_lt_negtrans (x y z : spec_float) :
  spec_lt x y = false -> spec_lt y z = false -> spec_lt x z = false.
Proof.
  unfold spec_lt, spec_is_nan, SFltb, SFeqb.
  destruct x as [[]|[]| |[] mx ex], y as [[]|[]| |[] my ey],
           z as [[]|[]| |[] mz ez]; cbn;
    try reflexivity; try discriminate;
    rewrite ?Z.compare_refl, ?Pos.compare_cont_refl; cbn;
    try reflexivity; try discriminate;
    intros Hxy Hyz; compare_cases; cbn in *;
    try reflexivity; try discriminate; try lia.
Qed.

Lemma double_lt_asym (a b : float) : lt a b = true -> lt b a = false.
Proof. cbn [lt binary64]. rewrite !np_lt_spec. apply spec_lt_asym. Qed.

Lemma double_lt_negtrans (a b c : float) :
  lt a b = false -> lt b c = false -> lt a c = false.
Proof. cbn [lt binary64]. rewrite !np_lt_spec. apply spec_lt_negtrans. Qed.


(** C1: the concrete scenario of two datasets, A with limit 1, exposure
    100 and events 2 and 5, B with limit 3, exposure 50 and event 4.  The
    energies are [2, 4, 5], the count is 3, the total exposure 150, the
    detectable exposures [100, 150, 150], the naive frequency
    [3/150, 2/150, 1/150] and the corrected frequency
    [2/150 + 1/100, 2/150, 1/150]. *)
Theorem scenario_two_datasets :
  exists r, Flares.__init__ [dataset_A; dataset_B] = Ok r /\
    Flares.e r = [2; 4; 5]%float /\
    Flares.n_total r = 3%nat /\
    Flares.expt_total r = 150%float /\
    Flares.expt_detectable r = [100; 150; 150]%float /\
    Flares.cumfreq_naive r = [3 / 150; 2 / 150; 1 / 150]%float /\
    Flares.cumfreq_corrected r =
      [2 / 150 + 1 / 100; 2 / 150; 1 / 150]%float.
Proof.
  eexists. split; [vm_compute; reflexivity|].
  vm_compute. repeat split.
Qed.

(** C2 fails: the event 2 lies below the only detection limit 3, and
    construction returns an aggregate instead of raising. *)
Lemma below_limit_not_rejected :
  In 2%float (concat (map FlareDataset.e [below_limit])) /\
  uncovered [below_limit] 2%float /\
  exists r, Flares.__init__ [below_limit] = Ok r /\
    forall x, Flares.__init__ [below_limit] <> Raise x.
Proof.
  split; [left; reflexivity|]. split.
  - intros d [<-|[]]. reflexivity.
  - eexists. split; [vm_compute; reflexivity|].
    intros x E. vm_compute in E. discriminate E.
Qed.

(** C3 fails: the exposure times of [no_exposure] sum to zero, and
    construction returns an aggregate whose naive frequency is infinite and
    whose corrected frequency is not a number. *)
Lemma no_exposure_not_rejected :
  np.sum (map FlareDataset.expt [no_exposure]) = zero /\
  exists r, Flares.__init__ [no_exposure] = Ok r /\
    Flares.cumfreq_naive r = [infinity] /\
    Flares.cumfreq_corrected r = [nan].
Proof.
  split; [reflexivity|].
  eexists. split; [vm_compute; reflexivity|].
  vm_compute. split; reflexivity.
Qed.

(** C5 at a failing input: the event 2 of [below_limit] lies below the
    detection limit 3, so that no dataset could have detected it and the
    documented detectable exposure is the empty sum 0; the constructor
    stores 50, the entry at index -1 of the cumulative exposures. *)
Theorem below_limit_detectable_exposure :
  exists r, Flares.__init__ [below_limit] = Ok r /\
    Flares.e r = [2%float] /\
    Flares.expt_detectable r = [50%float] /\
    filter (detects 2%float) [below_limit] = [] /\
    detectable_exposure_doc [below_limit] 2%float = 0%float.
Proof.
  eexists. split; [vm_compute; reflexivity|].
  vm_compute. repeat split.
Qed.

(** The tie-break of the search is inclusive: a dataset whose detection
    limit equals the energy of the event counts towards its detectable
    exposure, a dataset with a higher limit does not. *)
Lemma limit_at_energy_is_included :
  exists r, Flares.__init__ [at_limit; above_limit] = Ok r /\
    Flares.e r = [2%float] /\
    Flares.expt_detectable r = [100%float] /\
    filter (detects 2%float) [at_limit; above_limit] = [at_limit].
Proof.
  eexists. split; [vm_compute; reflexivity|].
  vm_compute. repeat split.
Qed.

(** C9 at a failing input: the detection limits 1 and 3 are distinct and
    the exposure times 100 and 50 positive, yet the detectable exposure
    falls from 150, for the energy 0.5, to 100, for the energy 2. *)
Theorem detectable_exposure_decreases :
  PrimFloat.eqb (FlareDataset.elim shallow) (FlareDataset.elim deep) = false /\
  Forall (fun d => PrimFloat.ltb 0 (FlareDataset.expt d) = true)
         [shallow; deep] /\
  exists r, Flares.__init__ [shallow; deep] = Ok r /\
    Flares.e r = [0.5; 2]%float /\
    Flares.expt_detectable r = [150; 100]%float /\
    ~ nondecreasing (Flares.expt_detectable r).
Proof.
  split; [reflexivity|]. split; [repeat constructor|].
  eexists. split; [vm_compute; reflexivity|].
  cbn [Flares.e Flares.expt_detectable]. repeat split.
  intros Hmono.
  specialize (Hmono 0%nat 1%nat 150%float 100%float (Nat.le_succ_diag_r 0)
                    eq_refl eq_refl).
  vm_compute in Hmono. discriminate Hmono.
Qed.

(** C7 fails in double precision: with total exposure 6 and one event
    detectable for 5, the running sum is 1/5 and the corrected frequency is
    (1/5 * 6) / 6, the next double above 1/5. *)
Lemma rescaling_changes_last_bit :
  Forall (fun d => PrimFloat.ltb 0 (FlareDataset.expt d) = true)
         [five; plus_one] /\
  exists r, Flares.__init__ [five; plus_one] = Ok r /\
    running_sums_topdown (inverse_exposures (Flares.expt_detectable r))
      = [1 / 5]%float /\
    Flares.cumfreq_corrected r = [1 / 5 * 6 / 6]%float /\
    Flares.cumfreq_corrected r <>
    running_sums_topdown (inverse_exposures (Flares.expt_detectable r)).
Proof.
  split; [repeat constructor|].
  eexists. split; [vm_compute; reflexivity|].
  vm_compute. repeat split.
  intros E.
  apply (f_equal (fun a => match a with
                           | x :: _ => PrimFloat.eqb x (1 / 5)%float
                           | [] => true
                           end)) in E.
  vm_compute in E. discriminate E.
Qed.

(** C8 fails in double precision: for one dataset with three events in
    ten units of time, the detectable exposure is 10 at every index, the
    naive frequency starts with 3/10 and the corrected frequency with
    ((1/10 + 1/10 + 1/10) * 10) / 10, the next double above 3/10. *)
Lemma single_dataset_differs_in_last_bit :
  PrimFloat.ltb 0 (FlareDataset.expt three_in_ten) = true /\
  exists r, Flares.__init__ [three_in_ten] = Ok r /\
    Flares.expt_detectable r = [10; 10; 10]%float /\
    nth_error (Flares.cumfreq_naive r) 0 = Some (3 / 10)%float /\
    nth_error (Flares.cumfreq_corrected r) 0
      = Some ((1 / 10 + 1 / 10 + 1 / 10) * 10 / 10)%float /\
    Flares.cumfreq_corrected r <> Flares.cumfreq_naive r.
Proof.
  split; [reflexivity|].
  eexists. split; [vm_compute; reflexivity|].
  vm_compute. repeat split.
  intros E.
  apply (f_equal (fun a => match a with
                           | x :: _ => PrimFloat.eqb x (3 / 10)%float
                           | [] => true
                           end)) in E.
  vm_compute in E. discriminate E.
Qed.

End DoubleClaims.

(** * The theorems at the test data *)

Section Instances.
Import F64 Exact Scenario.

(** [init_no_events] on two campaigns without events. *)
Lemma init_no_events_quiet :
  quiet <> [] /\
  Forall constructed quiet /\
  Forall (fun d => FlareDataset.e d = []) quiet /\
  exists r, Flares.__init__ quiet = Ok r /\
    Flares.n_total r = 0%nat /\
    Flares.e r = [] /\
    Flares.expt_detectable r = [] /\
    Flares.cumfreq_naive r = [] /\
    Flares.cumfreq_corrected r = [].
Proof.
  assert (H1 : quiet <> []) by discriminate.
  assert (H2 : Forall constructed quiet) by (repeat constructor).
  assert (H3 : Forall (fun d => FlareDataset.e d = []) quiet)
    by (repeat constructor).
  repeat split; try assumption.
  exact (init_no_events quiet H1 H2 H3).
Defined.

(** [init_uncovered_event_returns] on the campaign with an event below
    its limit. *)
Lemma init_uncovered_event_returns_below_limit :
  exists r, Flares.__init__ [below_limit] = Ok r /\
    length (Flares.e r) = Flares.n_total r /\
    length (Flares.expt_detectable r) = Flares.n_total r /\
    length (Flares.cumfreq_naive r) = Flares.n_total r /\
    length (Flares.cumfreq_corrected r) = Flares.n_total r.
Proof.
  apply (init_uncovered_event_returns [below_limit] 2%float).
  - repeat constructor.
  - left. reflexivity.
  - intros d [<-|[]]. reflexivity.
Defined.

(** [init_zero_exposure_returns] on the campaign without exposure. *)
Lemma init_zero_exposure_returns_no_exposure :
  exists r, Flares.__init__ [no_exposure] = Ok r /\
    Flares.expt_total r = zero /\
    Flares.cumfreq_naive r =
      map (fun k => div (of_int k) zero) (cumno (Flares.n_total r)).
Proof.
  apply (init_zero_exposure_returns [no_exposure]).
  - discriminate.
  - reflexivity.
Defined.

(** [cumfreq_naive_formula] on five events in ten units of time. *)
Lemma cumfreq_naive_formula_five_in_ten :
  exists r, Flares.__init__ [five_in_ten] = Ok r /\
    Flares.n_total r = 5%nat /\
    sum_of [10%float] (Flares.expt_total r) /\
    Flares.cumfreq_naive r = [5 / 10; 4 / 10; 3 / 10; 2 / 10; 1 / 10]%float.
Proof.
  destruct (cumfreq_naive_formula [five_in_ten])
    as (r & E & Hn & Hs & _ & Hex).
  - discriminate.
  - repeat constructor.
  - exists r. split; [exact E|]. split; [exact Hn|]. split; [exact Hs|].
    apply Hex; [reflexivity|].
    vm_compute in E. inversion E. reflexivity.
Defined.

(** [cumfreq_corrected_is_running_sum] on two campaigns, in double
    precision and over the rationals. *)
Lemma cumfreq_corrected_is_running_sum_five :
  (exists r, Flares.__init__ [Scenario.five; Scenario.plus_one] = Ok r /\
     Flares.cumfreq_corrected r =
     map (fun s => div (mul s (Flares.expt_total r)) (Flares.expt_total r))
         (running_sums_topdown
            (inverse_exposures (Flares.expt_detectable r)))) /\
  (exists r, Flares.__init__ [ExactScenario.five; ExactScenario.plus_one]
             = Ok r /\
     Flares.cumfreq_corrected r =
     running_sums_topdown (inverse_exposures (Flares.expt_detectable r))).
Proof.
  destruct cumfreq_corrected_is_running_sum as (Hany & Hexact).
  split.
  - destruct (init_total [Scenario.five; Scenario.plus_one]) as (r & E);
      [discriminate|].
    exists r. split; [exact E | exact (Hany float binary64 _ r E)].
  - destruct (init_total [ExactScenario.five; ExactScenario.plus_one])
      as (r & E); [discriminate|].
    exists r. split; [exact E|]. apply (Hexact _ r E).
    destruct (init_inv _ r E) as
      (_ & _ & _ & _ & _ & _ & _ & _ & ET & _).
    rewrite ET. apply not_eq_sym, Qclt_not_eq. reflexivity.
Defined.

(** [single_dataset_corrected_is_naive] on three events in ten units of
    time, in double precision and over the rationals. *)
Lemma single_dataset_corrected_is_naive_three_in_ten :
  (exists r, Flares.__init__ [Scenario.three_in_ten] = Ok r /\
     Flares.n_total r = 3%nat /\
     Flares.expt_total r = 10%float /\
     Flares.expt_detectable r =
       repeat (Flares.expt_total r) (Flares.n_total r)) /\
  (exists r, Flares.__init__ [ExactScenario.three_in_ten] = Ok r /\
     Flares.cumfreq_corrected r = Flares.cumfreq_naive r).
Proof.
  destruct single_dataset_corrected_is_naive as (Hany & Hexact).
  split.
  - destruct (Hany float binary64 1%float 10%float
                   [2%float; 3%float; 4%float])
      as (r & E & Hn & HT & Hd & _); [reflexivity|].
    exists r. repeat split; assumption.
  - apply (Hexact (Exact.from_int 1) (Exact.from_int 10)
                  [Exact.from_int 2; Exact.from_int 3; Exact.from_int 4]).
    reflexivity.
Defined.

(** The concrete scenario over the rationals: every event is covered and
    the detectable exposures are the documented sums. *)
Lemma scenario_covered_exact :
  exists r,
    Flares.__init__ [ExactScenario.dataset_A; ExactScenario.dataset_B]
      = Ok r /\
    Flares.e r = [Exact.from_int 2; Exact.from_int 4; Exact.from_int 5] /\
    map Some (Flares.expt_detectable r) =
      map (fun m => Some (detectable_exposure_doc
                            [ExactScenario.dataset_A; ExactScenario.dataset_B]
                            m))
          (Flares.e r).
Proof.
  set (ds := [ExactScenario.dataset_A; ExactScenario.dataset_B]).
  destruct (init_total ds) as (r & E); [discriminate|].
  exists r. split; [exact E|].
  destruct (init_inv ds r E) as
    (_ & _ & _ & _ & _ & _ & _ & _ & _ & Ee & _ & _).
  assert (Hen : Flares.e r
                = [Exact.from_int 2; Exact.from_int 4; Exact.from_int 5])
    by (rewrite Ee; reflexivity).
  assert (Hcov : Forall (covered ds) (Flares.e r)).
  { rewrite Hen. repeat constructor;
      exists ExactScenario.dataset_A; (split; [left|]); reflexivity. }
  split; [exact Hen|].
  assert (Hc : Forall constructed ds) by (repeat constructor).
  destruct (init_lengths ds r E Hc) as (Le & Ld & _).
  rewrite <- Le, Hen in Ld. cbn [length] in Ld.
  rewrite Forall_forall in Hcov.
  assert (Hi : forall i m, nth_error (Flares.e r) i = Some m ->
            nth_error (Flares.expt_detectable r) i =
            Some (detectable_exposure_doc ds m)).
  { intros i m Hm. apply (detectable_exposure_covered_exact ds r i m E Hm).
    eapply Hcov, nth_error_In, Hm. }
  rewrite Hen in Hi.
  pose proof (Hi 0%nat _ eq_refl) as H0.
  pose proof (Hi 1%nat _ eq_refl) as H1.
  pose proof (Hi 2%nat _ eq_refl) as H2.
  rewrite Hen.
  destruct (Flares.expt_detectable r) as [|a [|b [|c [|]]]];
    try discriminate Ld.
  cbn [nth_error] in H0, H1, H2. cbn [map]. congruence.
Qed.

End Instances.

(** * Further properties of the constructor *)

Section ConstructorProperties.
Context {num : Type} `{Numeric num}.

Local Abbreviation dataset := (FlareDataset.t num).

(** X1: construction raises on the empty list of datasets and on no other
    input, and what it raises is the [ValueError] of [np.concatenate]: the
    lookups [a[isort]] and [cumexpts[i_lims - 1]] never leave their arrays,
    so that no [IndexError] can arise. *)
Theorem init_raises_only_on_empty (ds : list dataset) (x : exn) :
  Flares.__init__ ds = Raise x <-> ds = [] /\ x = ValueError.
Proof.
  split.
  - intros E. destruct ds as [|d ds'].
    + split; [reflexivity|]. cbn in E. congruence.
    + destruct (init_total (d :: ds')) as (r & Er); [discriminate|].
      rewrite Er in E. discriminate E.
  - intros (-> & ->). reflexivity.
Qed.

(** X2: nothing is lost and nothing invented: on datasets built by
    [FlareDataset.__init__] the aggregate keeps the list of datasets, its
    count is the number of all events, its energies are a rearrangement of
    all events, and the four arrays have one entry for each event. *)
Theorem init_conservation (ds : list dataset) :
  ds <> [] ->
  Forall constructed ds ->
  exists r, Flares.__init__ ds = Ok r /\
    Flares.datasets r = ds /\
    Flares.n_total r = length (concat (map FlareDataset.e ds)) /\
    Permutation (Flares.e r) (concat (map FlareDataset.e ds)) /\
    length (Flares.e r) = Flares.n_total r /\
    length (Flares.expt_detectable r) = Flares.n_total r /\
    length (Flares.cumfreq_naive r) = Flares.n_total r /\
    length (Flares.cumfreq_corrected r) = Flares.n_total r.
Proof.
  intros Hne Hc.
  destruct (init_total ds Hne) as (r & E). exists r.
  destruct (init_inv ds r E) as
    (_ & _ & _ & _ & _ & _ & Eds & En & _ & Ee & _ & _).
  destruct (init_lengths ds r E Hc) as (Le & Ld & Ln & Lc).
  repeat split; try assumption.
  - rewrite En. now apply n_total_constructed.
  - rewrite Ee. apply sort_by_perm.
Qed.


End ConstructorProperties.

(** * Further properties when the order is a strict weak order *)

Section SortedProperties.
Context {num : Type} `{Numeric num}.

Local Abbreviation dataset := (FlareDataset.t num).

Hypothesis lt_asym : forall a b : num, lt a b = true -> lt b a = false.
Hypothesis lt_negtrans :
  forall a b c : num, lt a b = false -> lt b c = false -> lt a c = false.

Lemma ascending_map_nondecreasing (A : Type) (key : A -> num) (l : list A) :
  ascending key l -> nondecreasing (map key l).
Proof.
  intros Hl i j x y Hij Hx Hy.
  rewrite nth_error_map in Hx, Hy.
  destruct (nth_error l i) as [a|] eqn:Ea; [|discriminate Hx].
  destruct (nth_error l j) as [b|] eqn:Eb; [|discriminate Hy].
  injection Hx as <-. injection Hy as <-.
  exact (ascending_nth lt_asym lt_negtrans A key l i j a b Hl Hij Ea Eb).
Qed.

Lemma energies_nondecreasing (ds : list dataset) (r : Flares.t num) :
  Flares.__init__ ds = Ok r -> nondecreasing (Flares.e r).
Proof.
  intros E.
  destruct (init_inv ds r E) as
    (_ & _ & _ & _ & _ & _ & _ & _ & _ & Ee & _ & _).
  rewrite Ee. unfold energies, np.sort.
  rewrite <- (map_id (np.sort_by _ _)).
  apply ascending_map_nondecreasing, (sort_by_ascending lt_asym).
Qed.

Lemma combine_map_both (A : Type) (f g : A -> num) (l : list A) :
  combine (map f l) (map g l) = map (fun a => (f a, g a)) l.
Proof. induction l as [|a l IH]; cbn; [|rewrite IH]; reflexivity. Qed.

Lemma limits_exposures_paired (ds : list dataset) :
  exists elims expts,
    sorted_elims ds = Ok elims /\
    sorted_expts ds = Ok expts /\
    nondecreasing elims /\
    Permutation (combine elims expts)
                (map (fun d => (FlareDataset.elim d, FlareDataset.expt d)) ds).
Proof.
  exists (map FlareDataset.elim (np.sort_by FlareDataset.elim ds)),
         (map FlareDataset.expt (np.sort_by FlareDataset.elim ds)).
  unfold sorted_elims, sorted_expts. rewrite !take_argsort.
  repeat split.
  - apply ascending_map_nondecreasing, (sort_by_ascending lt_asym).
  - rewrite combine_map_both. apply Permutation_map, sort_by_perm.
Qed.

End SortedProperties.

(** * Further properties in double precision *)

Section DoubleProperties.
Import F64 Scenario.

Local Abbreviation dataset := (FlareDataset.t float).

(** X3: the energies of the aggregate never decrease with the index, in
    NumPy's order on doubles (a NaN comes after every number). *)
Theorem energies_nondecreasing_double (ds : list dataset)
    (r : Flares.t float) :
  Flares.__init__ ds = Ok r -> nondecreasing (Flares.e r).
Proof.
  apply (energies_nondecreasing double_lt_asym double_lt_negtrans).
Qed.

(** [energies_nondecreasing_double] at a concrete input. *)
Lemma energies_nondecreasing_double_scenario :
  exists r, Flares.__init__ [dataset_A; dataset_B] = Ok r /\
    nondecreasing (Flares.e r).
Proof.
  eexists. split.
  - vm_compute. reflexivity.
  - apply (energies_nondecreasing_double [dataset_A; dataset_B]).
    vm_compute. reflexivity.
Defined.

(** X4: sorting the detection limits through [argsort] never fails, leaves
    the limits in ascending order and keeps every exposure time next to
    the limit of its own dataset. *)
Theorem limits_exposures_paired_double (ds : list dataset) :
  exists elims expts,
    sorted_elims ds = Ok elims /\
    sorted_expts ds = Ok expts /\
    nondecreasing elims /\
    Permutation (combine elims expts)
                (map (fun d => (FlareDataset.elim d, FlareDataset.expt d)) ds).
Proof.
  apply (limits_exposures_paired double_lt_asym double_lt_negtrans).
Qed.



(** [init_conservation] at a concrete input. *)
Lemma init_conservation_scenario :
  exists r, Flares.__init__ [dataset_A; dataset_B] = Ok r /\
    Flares.datasets r = [dataset_A; dataset_B] /\
    Flares.n_total r =
      length (concat (map FlareDataset.e [dataset_A; dataset_B])) /\
    Permutation (Flares.e r)
                (concat (map FlareDataset.e [dataset_A; dataset_B])) /\
    length (Flares.e r) = Flares.n_total r /\
    length (Flares.expt_detectable r) = Flares.n_total r /\
    length (Flares.cumfreq_naive r) = Flares.n_total r /\
    length (Flares.cumfreq_corrected r) = Flares.n_total r.
Proof.
  apply (init_conservation [dataset_A; dataset_B]).
  - discriminate.
  - repeat constructor.
Defined.


End DoubleProperties.

(** * Further properties in exact arithmetic *)

Section ExactProperties.
Import Exact.
Local Open Scope Qc_scope.

Local Abbreviation dataset := (FlareDataset.t Qc).

(** [detectable_exposure_nondecreasing] at a concrete input. *)
Lemma detectable_exposure_nondecreasing_scenario :
  exists r,
    Flares.__init__ [ExactScenario.dataset_A; ExactScenario.dataset_B]
      = Ok r /\
    nondecreasing (Flares.expt_detectable r).
Proof.
  set (ds := [ExactScenario.dataset_A; ExactScenario.dataset_B]).
  destruct (init_total ds) as (r & E); [discriminate|].
  exists r. split; [exact E|].
  apply (detectable_exposure_nondecreasing ds r E).
  - destruct (init_inv ds r E) as
      (_ & _ & _ & _ & _ & _ & _ & _ & _ & Ee & _ & _).
    rewrite Ee.
    change (energies ds) with [from_int 2; from_int 4; from_int 5].
    repeat constructor;
      exists ExactScenario.dataset_A; (split; [left|]); reflexivity.
  - repeat constructor; discriminate.
Defined.

(** *** The two frequency curves *)

Lemma inv_positive (x : Qc) : 0 < x -> 0 < / x.
Proof.
  intros Hx. destruct (Qclt_le_dec 0 (/ x)) as [Hlt|Hle]; [exact Hlt|].
  exfalso.
  assert (H1 : / x * x <= 0 * x)
    by (apply Qcmult_le_compat_r; [exact Hle | now apply Qclt_le_weak]).
  rewrite Qcmult_inv_l, Qcmult_0_l in H1
    by now apply not_eq_sym, Qclt_not_eq.
  now apply H1.
Qed.

Lemma from_int_le (z z' : Z) : (z <= z')%Z -> from_int z <= from_int z'.
Proof.
  intros Hz. unfold from_int, Qcle. cbn [this Q2Qc].
  rewrite !Qred_correct. now rewrite <- Zle_Qle.
Qed.

Lemma inverse_exposures_positive (det : list Qc) :
  Forall (fun d => 0 < d) det ->
  Forall (fun t => 0 < t) (inverse_exposures det).
Proof.
  intros Hdet. unfold inverse_exposures. rewrite Forall_map.
  revert Hdet. apply Forall_impl. intros d Hd.
  unfold one. cbn [div of_int rational]. change (from_int 1) with 1.
  unfold Qcdiv. rewrite Qcmult_1_l. now apply inv_positive.
Qed.

(** The corrected frequency of a successful construction with positive
    total exposure, without the rescaling. *)
Lemma corrected_running_sums (ds : list dataset) (r : Flares.t Qc) :
  Flares.__init__ ds = Ok r -> 0 < Flares.expt_total r ->
  Flares.cumfreq_corrected r =
  running_sums_topdown (inverse_exposures (Flares.expt_detectable r)).
Proof.
  intros E HT. rewrite (cumfreq_corrected_rescaled ds r E).
  rewrite <- (map_id (running_sums_topdown _)) at 2.
  apply map_ext. intros s.
  apply rescale_cancels, not_eq_sym, Qclt_not_eq, HT.
Qed.

Lemma running_sums_nonincreasing (terms : list Qc) (i j : nat) (x y : Qc) :
  Forall (fun t => 0 < t) terms -> (i <= j)%nat ->
  nth_error (running_sums_topdown terms) i = Some x ->
  nth_error (running_sums_topdown terms) j = Some y ->
  y <= x.
Proof.
  intros Hpos. revert i j x y.
  induction Hpos as [|t r Ht _ IH]; intros i j x y Hij Hx Hy.
  - destruct i; discriminate Hx.
  - cbn [running_sums_topdown] in Hx, Hy.
    destruct (running_sums_topdown r) as [|s above] eqn:Er.
    + destruct i as [|[|i]]; [|discriminate Hx|discriminate Hx].
      destruct j as [|[|j]]; [|discriminate Hy|discriminate Hy].
      injection Hx as <-. injection Hy as <-. apply Qcle_refl.
    + destruct i as [|i].
      * injection Hx as <-. cbn [add rational].
        assert (Hs : s <= s + t).
        { replace s with (s + 0) at 1 by ring.
          apply Qcplus_le_compat; [apply Qcle_refl|now apply Qclt_le_weak]. }
        destruct j as [|j]; [injection Hy as <-; apply Qcle_refl|].
        apply Qcle_trans with s; [|exact Hs].
        apply (IH 0%nat j s y); [lia | reflexivity | exact Hy].
      * destruct j as [|j]; [lia|].
        apply (IH i j x y); [lia | exact Hx | exact Hy].
Qed.

(** X9: with positive exposure times both curves are non-increasing in exact
    arithmetic: a higher energy never has a higher cumulative frequency. *)
Theorem cumfreqs_nonincreasing (ds : list dataset) (r : Flares.t Qc)
    (i j : nat) :
  Forall (fun d => 0 < FlareDataset.expt d) ds ->
  Flares.__init__ ds = Ok r ->
  (i <= j)%nat ->
  (forall x y, nth_error (Flares.cumfreq_naive r) i = Some x ->
               nth_error (Flares.cumfreq_naive r) j = Some y -> y <= x) /\
  (forall x y, nth_error (Flares.cumfreq_corrected r) i = Some x ->
               nth_error (Flares.cumfreq_corrected r) j = Some y -> y <= x).
Proof.
  intros Hpos E Hij.
  destruct (exposures_positive ds r Hpos E) as (HT & Hdet).
  destruct (init_inv ds r E) as
    (_ & _ & _ & _ & _ & _ & _ & _ & _ & _ & Enaive & _).
  split; intros x y Hx Hy.
  - assert (Hj : (j < Flares.n_total r)%nat).
    { assert (Hlen : length (Flares.cumfreq_naive r) = Flares.n_total r).
      { rewrite Enaive, !length_map, length_rev. apply arange_length. }
      rewrite <- Hlen. apply nth_error_Some. congruence. }
    rewrite Enaive in Hx, Hy. fold (cumno (Flares.n_total r)) in Hx, Hy.
    rewrite nth_error_map, cumno_nth in Hx, Hy by lia.
    injection Hx as <-. injection Hy as <-.
    cbn [div of_int rational]. unfold Qcdiv.
    apply Qcmult_le_compat_r; [|now apply Qclt_le_weak, inv_positive].
    apply from_int_le. lia.
  - rewrite (corrected_running_sums ds r E HT) in Hx, Hy.
    apply (running_sums_nonincreasing _ i j x y
             (inverse_exposures_positive _ Hdet) Hij Hx Hy).
Qed.

(** [cumfreqs_nonincreasing] at a concrete input. *)
Lemma cumfreqs_nonincreasing_scenario :
  exists r,
    Flares.__init__ [ExactScenario.dataset_A; ExactScenario.dataset_B]
      = Ok r /\
    (forall x y, nth_error (Flares.cumfreq_naive r) 0 = Some x ->
                 nth_error (Flares.cumfreq_naive r) 2 = Some y -> y <= x) /\
    (forall x y, nth_error (Flares.cumfreq_corrected r) 0 = Some x ->
                 nth_error (Flares.cumfreq_corrected r) 2 = Some y -> y <= x).
Proof.
  set (ds := [ExactScenario.dataset_A; ExactScenario.dataset_B]).
  destruct (init_total ds) as (r & E); [discriminate|].
  exists r. split; [exact E|].
  assert (Hpos : Forall (fun d => 0 < FlareDataset.expt d) ds)
    by (repeat constructor).
  assert (Hij : (0 <= 2)%nat) by lia.
  exact (cumfreqs_nonincreasing ds r 0 2 Hpos E Hij).
Defined.

End ExactProperties.

(** * Properties of [plot_ffd] *)

Section PlotProperties.
Import F64 Scenario.

Local Abbreviation dataset := (FlareDataset.t float).

(** X13: whatever matplotlib answers and whatever options are passed, a call
    [ax.step] that [plot_ffd] makes on an aggregate built by the
    constructor draws one of the two frequency curves against the
    energies, with steps placed after each energy: the x values never
    decrease and there is one y value for each of them. *)
Theorem plot_ffd_draws_parallel_arrays (ds : list dataset)
    (r : Flares.t float) (mpl : py.matplotlib float)
    (args : list py.value) (kwargs : py.kwargs)
    (ax : py.value) (x y : list float) (where_ : string) (kw : py.kwargs) :
  Forall constructed ds ->
  Flares.__init__ ds = Ok r ->
  In (py.Step ax x y where_ kw) (fst (Flares.plot_ffd mpl r args kwargs)) ->
  x = Flares.e r /\
  nondecreasing x /\
  length y = length x /\
  (y = Flares.cumfreq_corrected r \/ y = Flares.cumfreq_naive r) /\
  where_ = "post"%string.
Proof.
  intros Hc E Hin.
  destruct (init_lengths ds r E Hc) as (Le & _ & Ln & Lc).
  pose proof (energies_nondecreasing double_lt_asym double_lt_negtrans
                ds r E) as Hsorted.
  unfold Flares.plot_ffd in Hin.
  destruct (py.step mpl _) as [f|]; cbn [fst] in Hin.
  - destruct (py.has kwargs "where"); cbn [fst] in Hin.
    + destruct Hin as [Hin|[]]. discriminate Hin.
    + destruct Hin as [Hin|[Hin|[]]]; [discriminate Hin|].
      injection Hin as <- <- <- <- <-.
      repeat split; try assumption.
      * destruct (py.truthy _); congruence.
      * destruct (py.truthy _); auto.
  - destruct Hin as [Hin|[]]. discriminate Hin.
Qed.

(** [plot_ffd_draws_parallel_arrays] at a concrete input. *)
Lemma plot_ffd_draws_parallel_arrays_scenario :
  exists r,
    Flares.__init__ [dataset_A; dataset_B] = Ok r /\
    In (py.Step (py.Obj 0) (Flares.e r) (Flares.cumfreq_naive r) "post"
                naive_please)
       (fst (Flares.plot_ffd one_line r [] naive_please)) /\
    nondecreasing (Flares.e r) /\
    length (Flares.cumfreq_naive r) = length (Flares.e r).
Proof.
  set (ds := [dataset_A; dataset_B]).
  destruct (init_total ds) as (r & E); [discriminate|].
  assert (Hc : Forall constructed ds) by (repeat constructor).
  assert (Hin : In (py.Step (py.Obj 0) (Flares.e r) (Flares.cumfreq_naive r)
                            "post" naive_please)
                   (fst (Flares.plot_ffd one_line r [] naive_please)))
    by (right; left; reflexivity).
  destruct (plot_ffd_draws_parallel_arrays ds r one_line [] naive_please
              _ _ _ _ _ Hc E Hin) as (_ & Hs & Hl & _).
  exists r. repeat split; assumption.
Defined.

End PlotProperties.
